(** * bccc sidebar: channel boxes and the channels list

    A shallow embedding of [bccc/ui/sidebar.py] (classes [ChannelBox] and
    [ChannelsList]) together with the properties of its ordering, unread
    accounting, activation and header layout.

    Python objects are mutable and shared: the same [ChannelBox] is reachable
    from the list walker, from [active_channel] and from the callbacks the
    channel holds.  Objects therefore live in a store indexed by object
    identity, and the list holds references.  Exceptions leave the mutations
    made so far in place, so a raising computation still carries a state. *)

From Stdlib Require Import ZArith Lia Ascii String DecimalString.
From stdpp Require Import gmap strings list sorting.

Local Open Scope string_scope.
Local Open Scope Z_scope.

(** ** Values delivered by the collaborators *)

(** Exceptions that the code of this file can meet.  [DanglingRef] is not a
    Python exception: it is the outcome of the model when a reference does
    not resolve in the store, which no Python state exhibits. *)
Inductive exn : Type :=
  | ChannelError
  | ValueError
  | IndexError
  | AttributeError
  | DanglingRef.

(** Timestamps ([datetime] values with a time zone) are instants, compared
    with [>] and [==]; an instant is an integer offset from the epoch. *)
Definition datetime : Type := Z.

(** [bccc.client.Channel], owned by the network client.  Only [jid] is read
    here.  [requests] is what the first request made by the constructor of
    [ChannelBox] raises, if it raises. *)
Record Channel : Type := mkChannel {
  jid : string;
  requests : option exn
}.

(** An Atom entry of a feed. *)
Record Atom : Type := mkAtom {
  atom_id : string;
  published : datetime;
  content : string
}.

(** The result of a call into the client. *)
Inductive reply (A : Type) : Type :=
  | Fetched (a : A)
  | Failed (e : exn).
Arguments Fetched {A} a.
Arguments Failed {A} e.

(** The [conf] dictionary of a configuration event: every key is optional. *)
Record Config : Type := mkConfig {
  conf_title : option string;
  conf_description : option string;
  conf_creation : option datetime;
  conf_type : option string
}.

(** ** Strings *)

(** [s.split(sep, 1)] unpacked into two names: [None] when [sep] does not
    occur (the unpacking raises [ValueError]). *)
Fixpoint split_once (sep : ascii) (s : string) : option (string * string) :=
  match s with
  | EmptyString => None
  | String c s' =>
      if Ascii.eqb c sep then Some (EmptyString, s')
      else match split_once sep s' with
           | Some (a, b) => Some (String c a, b)
           | None => None
           end
  end.

(** [s.split(sep)]: every occurrence splits, empty pieces are kept. *)
Fixpoint split_all (sep : ascii) (s : string) : list string :=
  match s with
  | EmptyString => [EmptyString]
  | String c s' =>
      if Ascii.eqb c sep then EmptyString :: split_all sep s'
      else match split_all sep s' with
           | w :: ws => String c w :: ws
           | [] => [String c EmptyString]
           end
  end.

(** ["".join([w[0] for w in ws])]: [None] when some [w] is empty
    ([w[0]] raises [IndexError]). *)
Fixpoint initials (ws : list string) : option string :=
  match ws with
  | [] => Some EmptyString
  | EmptyString :: _ => None
  | String c _ :: ws' =>
      match initials ws' with
      | Some r => Some (String c r)
      | None => None
      end
  end.

(** Whitespace of [str.strip()] within the ASCII range. *)
Definition is_space (c : ascii) : bool :=
  let n := nat_of_ascii c in
  ((9 <=? n)%nat && (n <=? 13)%nat) || ((28 <=? n)%nat && (n <=? 32)%nat).

Fixpoint lstrip (s : string) : string :=
  match s with
  | EmptyString => EmptyString
  | String c s' => if is_space c then lstrip s' else s
  end.

Fixpoint rstrip (s : string) : string :=
  match s with
  | EmptyString => EmptyString
  | String c s' =>
      match rstrip s' with
      | EmptyString => if is_space c then EmptyString else String c EmptyString
      | r => String c r
      end
  end.

Definition strip (s : string) : string := rstrip (lstrip s).

(** [" [{}]".format(n)] *)
Definition format_notif (n : nat) : string :=
  " [" ++ NilZero.string_of_uint (Nat.to_uint n) ++ "]".

(** ["{} - {}".format(a, b)] *)
Definition format_dash (a b : string) : string := a ++ " - " ++ b.

(** ["Displaying channel {}...".format(j)] *)
Definition format_displaying (j : string) : string :=
  "Displaying channel " ++ j ++ "...".

(** Width of the widest line of a text, one column per character: the first
    component of [Text.pack()] called without a size. *)
Fixpoint line_widths (cur : Z) (s : string) : list Z :=
  match s with
  | EmptyString => [cur]
  | String c s' =>
      if Ascii.eqb c "010"%char then cur :: line_widths 0 s'
      else line_widths (cur + 1) s'
  end.

Definition pack (text : string) : Z :=
  foldr Z.max 0 (line_widths 0 text).

(** ** Objects *)

(** The state of one [ChannelBox].  The four sub-widgets keep their text;
    [style_active] tells which of the two attribute maps they carry (the
    maps of all four are switched together by [set_active]). *)
Record ChannelBox : Type := mkChannelBox {
  channel : Channel;
  active : bool;
  unread_ids : gset string;
  widget_user : string;
  widget_domain : string;
  widget_notif : string;
  widget_status : string;
  style_active : bool;
  chan_title : string;
  chan_description : string;
  chan_creation : string;
  chan_type : string;
  most_recent_activity : datetime
}.

(** [ChannelBox._oldest_date] *)
Definition _oldest_date : datetime := 0.

(** A row of the list walker: a reference to a [ChannelBox] or to a
    [urwid.Divider].  Rows are compared by identity. *)
Inductive widget : Type :=
  | WBox (ref : nat)
  | WDivider (ref : nat).

#[global] Instance widget_eq_dec : EqDecision widget.
Proof. solve_decision. Defined.

(** Calls made to the collaborators, kept as a trace (latest first). *)
Inductive call : Type :=
  | Notify
  | Refresh
  | InvalidateBox (ref : nat)
  | InvalidateList
  | AddNewItems (atoms : list Atom)
  | RemoveItems (ids : list string)
  | SetActiveChannel (c : Channel)
  | SetCallbacks (c : Channel)
  | GetStatus (c : Channel)
  | GetConfig (c : Channel)
  | GetPosts (c : Channel) (max : nat)
  | Ask (prompt : string).

(** The [ChannelsList] with the parts of [ui] it reaches. *)
Record State : Type := mkState {
  boxes : gmap nat ChannelBox;      (* the ChannelBox objects *)
  next_ref : nat;                   (* identity of the next object *)
  channels : list widget;           (* self._channels *)
  focus : nat;                      (* self._channels.focus *)
  active_channel : option nat;      (* self.active_channel *)
  boundjid_bare : string;           (* ui.client.boundjid.bare *)
  status : string;                  (* ui.status *)
  infobar_left : string;
  infobar_right : string;
  calls : list call
}.

(** [ChannelsList.__init__] *)
Definition ChannelsList_init (me : string) : State :=
  mkState ∅ 0 [] 0 None me "" "" "" [].

(** ** Computations that may raise *)

Inductive outcome (A : Type) : Type :=
  | Ret (a : A) (s : State)
  | Raise (e : exn) (s : State).
Arguments Ret {A} a s.
Arguments Raise {A} e s.

Definition M (A : Type) : Type := State → outcome A.

Definition ret {A} (a : A) : M A := λ s, Ret a s.
Definition raise {A} (e : exn) : M A := λ s, Raise e s.
Definition bind {A B} (m : M A) (k : A → M B) : M B :=
  λ s, match m s with
       | Ret a s' => k a s'
       | Raise e s' => Raise e s'
       end.

Notation "x <~ m ;; k" := (bind m (λ x, k))
  (at level 100, m at next level, right associativity, only parsing).
Notation "m ;;; k" := (bind m (λ _, k))
  (at level 100, right associativity, only parsing).

(** The state a computation ends in, raised or not. *)
Definition final {A} (o : outcome A) : State :=
  match o with Ret _ s => s | Raise _ s => s end.

Definition modify (f : State → State) : M unit := λ s, Ret tt (f s).

Definition set_boxes (h : gmap nat ChannelBox) (s : State) : State :=
  mkState h (next_ref s) (channels s) (focus s) (active_channel s)
    (boundjid_bare s) (status s) (infobar_left s) (infobar_right s) (calls s).

Definition set_next_ref (n : nat) (s : State) : State :=
  mkState (boxes s) n (channels s) (focus s) (active_channel s)
    (boundjid_bare s) (status s) (infobar_left s) (infobar_right s) (calls s).

Definition set_focus_pos (n : nat) (s : State) : State :=
  mkState (boxes s) (next_ref s) (channels s) n (active_channel s)
    (boundjid_bare s) (status s) (infobar_left s) (infobar_right s) (calls s).

Definition set_active_channel (a : option nat) (s : State) : State :=
  mkState (boxes s) (next_ref s) (channels s) (focus s) a
    (boundjid_bare s) (status s) (infobar_left s) (infobar_right s) (calls s).

Definition set_status_text (t : string) (s : State) : State :=
  mkState (boxes s) (next_ref s) (channels s) (focus s) (active_channel s)
    (boundjid_bare s) t (infobar_left s) (infobar_right s) (calls s).

Definition set_infobars (l r : string) (s : State) : State :=
  mkState (boxes s) (next_ref s) (channels s) (focus s) (active_channel s)
    (boundjid_bare s) (status s) l r (calls s).

Definition emit (c : call) : M unit :=
  modify (λ s,
    mkState (boxes s) (next_ref s) (channels s) (focus s) (active_channel s)
      (boundjid_bare s) (status s) (infobar_left s) (infobar_right s)
      (c :: calls s)).

(** [SimpleListWalker._modified]: after every change of the list the focus
    is brought back into range. *)
Definition _modified (s : State) : State :=
  if (length (channels s) <=? focus s)%nat
  then set_focus_pos (Nat.max 0 (length (channels s) - 1)) s
  else s.

(** Every mutation of the monitored list ends with [_modified]. *)
Definition set_channels (l : list widget) : M unit :=
  modify (λ s,
    _modified
      (mkState (boxes s) (next_ref s) l (focus s) (active_channel s)
         (boundjid_bare s) (status s) (infobar_left s) (infobar_right s)
         (calls s))).

(** [list.insert(i, x)]: an index past the end appends. *)
Definition list_insert_at (i : nat) (x : widget) (l : list widget) : list widget :=
  take i l ++ x :: drop i l.

(** [list.index(x)]: position of the first row that is [x]. *)
Fixpoint index (x : widget) (l : list widget) : option nat :=
  match l with
  | [] => None
  | y :: l' => if decide (y = x) then Some 0%nat else S <$> index x l'
  end.

(** [SimpleListWalker.get_focus], first component: [None] on an empty list,
    otherwise the row at the focus position. *)
Definition get_focus : M (option widget) :=
  λ s, match channels s with
       | [] => Ret None s
       | _ => match channels s !! focus s with
              | Some w => Ret (Some w) s
              | None => Raise IndexError s
              end
       end.

(** [ListBox.set_focus(position)] *)
Definition set_focus (position : nat) : M unit :=
  modify (λ s, _modified (set_focus_pos position s)).

Definition read_box (self : nat) : M ChannelBox :=
  λ s, match boxes s !! self with
       | Some b => Ret b s
       | None => Raise DanglingRef s
       end.

Definition write_box (self : nat) (b : ChannelBox) : M unit :=
  modify (λ s, set_boxes (<[self := b]> (boxes s)) s).

(** Allocation of a new object identity. *)
Definition new_ref : M nat :=
  λ s, Ret (next_ref s) (set_next_ref (S (next_ref s)) s).

(** ** ChannelBox *)

Definition with_active (a : bool) (b : ChannelBox) : ChannelBox :=
  mkChannelBox (channel b) a (unread_ids b) (widget_user b) (widget_domain b)
    (widget_notif b) (widget_status b) (style_active b) (chan_title b)
    (chan_description b) (chan_creation b) (chan_type b)
    (most_recent_activity b).

Definition with_style (a : bool) (b : ChannelBox) : ChannelBox :=
  mkChannelBox (channel b) (active b) (unread_ids b) (widget_user b)
    (widget_domain b) (widget_notif b) (widget_status b) a (chan_title b)
    (chan_description b) (chan_creation b) (chan_type b)
    (most_recent_activity b).

Definition with_unread (u : gset string) (b : ChannelBox) : ChannelBox :=
  mkChannelBox (channel b) (active b) u (widget_user b) (widget_domain b)
    (widget_notif b) (widget_status b) (style_active b) (chan_title b)
    (chan_description b) (chan_creation b) (chan_type b)
    (most_recent_activity b).

Definition with_notif (t : string) (b : ChannelBox) : ChannelBox :=
  mkChannelBox (channel b) (active b) (unread_ids b) (widget_user b)
    (widget_domain b) t (widget_status b) (style_active b) (chan_title b)
    (chan_description b) (chan_creation b) (chan_type b)
    (most_recent_activity b).

Definition with_status (t : string) (b : ChannelBox) : ChannelBox :=
  mkChannelBox (channel b) (active b) (unread_ids b) (widget_user b)
    (widget_domain b) (widget_notif b) t (style_active b) (chan_title b)
    (chan_description b) (chan_creation b) (chan_type b)
    (most_recent_activity b).

Definition with_activity (d : datetime) (b : ChannelBox) : ChannelBox :=
  mkChannelBox (channel b) (active b) (unread_ids b) (widget_user b)
    (widget_domain b) (widget_notif b) (widget_status b) (style_active b)
    (chan_title b) (chan_description b) (chan_creation b) (chan_type b) d.

Definition with_title (t : string) (b : ChannelBox) : ChannelBox :=
  mkChannelBox (channel b) (active b) (unread_ids b) (widget_user b)
    (widget_domain b) (widget_notif b) (widget_status b) (style_active b)
    t (chan_description b) (chan_creation b) (chan_type b)
    (most_recent_activity b).

Definition with_description (t : string) (b : ChannelBox) : ChannelBox :=
  mkChannelBox (channel b) (active b) (unread_ids b) (widget_user b)
    (widget_domain b) (widget_notif b) (widget_status b) (style_active b)
    (chan_title b) t (chan_creation b) (chan_type b)
    (most_recent_activity b).

Definition with_creation (t : string) (b : ChannelBox) : ChannelBox :=
  mkChannelBox (channel b) (active b) (unread_ids b) (widget_user b)
    (widget_domain b) (widget_notif b) (widget_status b) (style_active b)
    (chan_title b) (chan_description b) t (chan_type b)
    (most_recent_activity b).

Definition with_type (t : string) (b : ChannelBox) : ChannelBox :=
  mkChannelBox (channel b) (active b) (unread_ids b) (widget_user b)
    (widget_domain b) (widget_notif b) (widget_status b) (style_active b)
    (chan_title b) (chan_description b) (chan_creation b) t
    (most_recent_activity b).

(** [ChannelBox.__init__].  The jid is taken apart first; a jid without
    ["@"] or with an empty label in its domain raises before anything is
    built.  The requests to the channel come last; a box whose construction
    raises is referenced by nothing and is not kept. *)
Definition ChannelBox_init (chan : Channel) : M nat :=
  match split_once "@"%char (jid chan) with
  | None => raise ValueError
  | Some (user, domain) =>
      match initials (split_all "."%char domain) with
      | None => raise IndexError
      | Some dom =>
          emit (SetCallbacks chan) ;;;
          match requests chan with
          | Some e => raise e
          | None =>
              emit (GetStatus chan) ;;;
              emit (GetConfig chan) ;;;
              self <~ new_ref ;;
              write_box self
                (mkChannelBox chan false ∅ user ("@" ++ dom) "" "" false
                   "" "" "" "" _oldest_date) ;;;
              emit (GetPosts chan 1) ;;;
              ret self
          end
      end
  end.

(** [ChannelBox.display_config] *)
Definition display_config (self : nat) : M unit :=
  b <~ read_box self ;;
  if active b then
    modify (set_infobars (format_dash (chan_title b) (chan_description b))
              (jid (channel b)))
  else ret tt.

(** [ChannelBox.set_active] *)
Definition set_active (self : nat) (act : bool) : M unit :=
  b <~ read_box self ;;
  write_box self (with_active act b) ;;;
  if act then
    b <~ read_box self ;;
    write_box self (with_unread ∅ (with_notif "" (with_style true b))) ;;;
    display_config self
  else
    b <~ read_box self ;;
    write_box self (with_style false b).

(** [ChannelBox.set_status] *)
Definition set_status (self : nat) (text : string) : M unit :=
  b <~ read_box self ;;
  write_box self (with_status text b) ;;;
  emit (InvalidateBox self).

(** The first header line drawn by [ChannelBox.render]. *)
Inductive part : Type := User | Domain | Notif.

Inductive header : Type :=
  | CanvasJoin (segments : list (part * Z))   (* comb1: widgets side by side *)
  | Alone (p : part) (maxcol : Z).            (* canv1: one widget at [size] *)

(** The first line of [ChannelBox.render], as a function of the widths the
    method reads: [maxcol = size[0]], the packed widths of the user and of
    the notification text, and [len(self.unread_ids)]. *)
Definition render_header (maxcol user_col notif_col : Z) (nb_unread : nat) : header :=
  if (nb_unread =? 0)%nat then
    let domain_col := maxcol - user_col in
    if domain_col >? 0 then
      CanvasJoin [(User, user_col); (Domain, domain_col)]
    else Alone User maxcol
  else
    let domain_col := maxcol - user_col - notif_col in
    if domain_col >? 0 then
      CanvasJoin [(User, user_col); (Domain, domain_col); (Notif, notif_col)]
    else
      let user_col := Z.min user_col (maxcol - notif_col) in
      if user_col >? 0 then
        CanvasJoin [(User, user_col); (Notif, notif_col)]
      else Alone Notif maxcol.

(** [ChannelBox.render], first line, on a box. *)
Definition render (b : ChannelBox) (maxcol : Z) : header :=
  render_header maxcol (pack (widget_user b)) (pack (widget_notif b))
    (size (unread_ids b)).

(** The text a part of the header shows. *)
Definition part_text (b : ChannelBox) (p : part) : string :=
  match p with
  | User => widget_user b
  | Domain => widget_domain b
  | Notif => widget_notif b
  end.

Definition parts (h : header) : list part :=
  match h with
  | CanvasJoin segs => fst <$> segs
  | Alone p _ => [p]
  end.

(** ** ChannelsList *)

Definition gets {A} (f : State → A) : M A := λ s, Ret (f s) s.

(** The sort key [cb.most_recent_activity]; a divider has no such
    attribute. *)
Definition key_of (w : widget) : M datetime :=
  match w with
  | WBox i => b <~ read_box i ;; ret (most_recent_activity b)
  | WDivider _ => raise AttributeError
  end.

Fixpoint decorate (l : list widget) : M (list (datetime * widget)) :=
  match l with
  | [] => ret []
  | w :: l' =>
      k <~ key_of w ;;
      r <~ decorate l' ;;
      ret ((k, w) :: r)
  end.

(** [list.sort(key=..., reverse=True)] on the decorated rows: descending by
    key, rows of equal key in their original order.  A row goes in front of
    the first row whose key is not greater than its own. *)
Fixpoint insert_desc (x : datetime * widget) (l : list (datetime * widget))
  : list (datetime * widget) :=
  match l with
  | [] => [x]
  | y :: l' => if y.1 >? x.1 then y :: insert_desc x l' else x :: y :: l'
  end.

Definition sort_desc (l : list (datetime * widget)) : list (datetime * widget) :=
  foldr insert_desc [] l.

(** [ChannelsList.sort_channels] *)
Definition sort_channels : M unit :=
  focus_w <~ get_focus ;;
  l <~ gets channels ;;
  let sortable_chans := drop 2 l in
  keyed <~ decorate sortable_chans ;;
  set_channels (take 2 l ++ (snd <$> sort_desc keyed)) ;;;
  l' <~ gets channels ;;
  match focus_w with
  | None => raise ValueError
  | Some w =>
      match index w l' with
      | None => raise ValueError
      | Some focus_pos => set_focus focus_pos ;;; emit InvalidateList
      end
  end.

(** [ChannelsList.make_active].  [chan] is whatever the caller passes: a
    row, or [None] when the list had no focus. *)
Definition make_active (chan : option widget) : M unit :=
  cur <~ gets active_channel ;;
  if decide (WBox <$> cur = chan) then ret tt
  else
    match chan with
    | Some (WBox i) =>
        b <~ read_box i ;;
        modify (set_status_text (format_displaying (jid (channel b)))) ;;;
        match cur with
        | Some old => set_active old false
        | None => ret tt
        end ;;;
        modify (set_active_channel (Some i)) ;;;
        set_active i true ;;;
        b <~ read_box i ;;
        emit (SetActiveChannel (channel b))
    | _ => raise AttributeError
    end.

(** The loop of [pubsub_posts_callback] over the atoms: the most recent
    date seen so far and whether it moved. *)
Definition scan_atoms (atoms : list Atom) (start : datetime) : datetime * bool :=
  foldl (λ acc atom,
           if published atom >? acc.1 then (published atom, true) else acc)
        (start, false) atoms.

(** [ChannelBox.pubsub_posts_callback] *)
Definition pubsub_posts_callback (self : nat) (atoms : list Atom) : M unit :=
  b <~ read_box self ;;
  let first_post_ever := most_recent_activity b =? _oldest_date in
  let '(recent, recent_changed) := scan_atoms atoms (most_recent_activity b) in
  write_box self (with_activity recent b) ;;;
  (if recent_changed then sort_channels else ret tt) ;;;
  b <~ read_box self ;;
  (if active b then emit (AddNewItems atoms)
   else if negb first_post_ever then
     let unread := foldl (λ u a, {[atom_id a]} ∪ u) (unread_ids b) atoms in
     write_box self (with_unread unread b) ;;;
     let nb_unread := size unread in
     if (0 <? nb_unread)%nat then
       b <~ read_box self ;;
       write_box self (with_notif (format_notif nb_unread) b) ;;;
       emit (InvalidateBox self)
     else ret tt
   else ret tt) ;;;
  emit Notify.

(** [ChannelBox.pubsub_retract_callback] *)
Definition pubsub_retract_callback (self : nat) (item_ids : list string) : M unit :=
  b <~ read_box self ;;
  write_box self
    (with_unread (foldl (λ u id_, u ∖ {[id_]}) (unread_ids b) item_ids) b) ;;;
  (if active b then emit (RemoveItems item_ids) else ret tt) ;;;
  sort_channels.

(** [ChannelBox.pubsub_status_callback] *)
Definition pubsub_status_callback (self : nat) (atom : Atom) : M unit :=
  b <~ read_box self ;;
  write_box self (with_status (content atom) b) ;;;
  emit (InvalidateBox self) ;;;
  emit Notify.

(** [ChannelsList.load_channels].  [own] is the reply to
    [ui.client.get_channel()], [subs] the reply to
    [user_chan.get_subscriptions()]. *)
Definition add_channel (chan : Channel) : M unit :=
  w <~ ChannelBox_init chan ;;
  me <~ gets boundjid_bare ;;
  l <~ gets channels ;;
  if decide (jid chan = me) then
    set_channels (list_insert_at 0 (WBox w) l) ;;;
    make_active (Some (WBox w))
  else set_channels (l ++ [WBox w]).

Fixpoint add_channels (chans : list Channel) : M unit :=
  match chans with
  | [] => ret tt
  | chan :: rest => add_channel chan ;;; add_channels rest
  end.

Definition load_channels (own : reply Channel) (subs : reply (list Channel)) : M unit :=
  match own with
  | Failed e => raise e
  | Fetched user_chan =>
      match subs with
      | Failed e => raise e
      | Fetched chans =>
          set_channels [] ;;;
          add_channels chans ;;;
          d <~ new_ref ;;
          l <~ gets channels ;;
          set_channels (list_insert_at 1 (WDivider d) l) ;;;
          emit Refresh
      end
  end.

(** [ChannelsList.reset].  [get_channel jid force_new] is the client. *)
Definition reset (get_channel : string → bool → reply Channel) : M unit :=
  chan_box <~ gets active_channel ;;
  l <~ gets channels ;;
  match chan_box with
  | None => raise ValueError
  | Some old =>
      match index (WBox old) l with
      | None => raise ValueError
      | Some idx =>
          b <~ read_box old ;;
          match get_channel (jid (channel b)) true with
          | Failed ChannelError => ret tt
          | Failed e => raise e
          | Fetched new_chan =>
              new_chan_box <~ ChannelBox_init new_chan ;;
              l <~ gets channels ;;
              set_channels (<[idx := WBox new_chan_box]> l) ;;;
              make_active (Some (WBox new_chan_box))
          end
      end
  end.

(** The scan of [_goto_channel]: index of the first box whose jid is
    [j]. *)
Fixpoint find_jid (h : gmap nat ChannelBox) (j : string) (l : list widget) : option nat :=
  match l with
  | [] => None
  | w :: l' =>
      let here :=
        match w with
        | WBox i =>
            match h !! i with
            | Some b => bool_decide (jid (channel b) = j)
            | None => false
            end
        | WDivider _ => false
        end in
      if here then Some 0%nat else S <$> find_jid h j l'
  end.

(** [ChannelsList.goto]: without a jid the status line asks for one. *)
Definition goto (get_channel : string → bool → reply Channel) (jid_ : option string) : M unit :=
  match jid_ with
  | None => emit (Ask "Go to channel: ")
  | Some j =>
      let j := strip j in
      h <~ gets boxes ;;
      l <~ gets channels ;;
      found <~ match find_jid h j l with
               | Some idx => ret (Some idx)
               | None =>
                   match get_channel j false with
                   | Failed ChannelError => ret None
                   | Failed e => raise e
                   | Fetched c =>
                       chan <~ ChannelBox_init c ;;
                       l <~ gets channels ;;
                       set_channels (l ++ [WBox chan]) ;;;
                       l <~ gets channels ;;
                       ret (Some (length l - 1)%nat)
                   end
               end ;;
      match found with
      | None => ret tt
      | Some chan_idx =>
          l <~ gets channels ;;
          match l !! chan_idx with
          | None => raise IndexError
          | Some chan => set_focus chan_idx ;;; make_active (Some chan)
          end
      end
  end.

(** [ChannelsList.keypress] on ["enter"]. *)
Definition keypress_enter : M unit :=
  focus_w <~ get_focus ;;
  make_active focus_w.

(** ** Configuration events *)

Section Locale.

(** [datetime.strftime(fmt)] in the locale of the process. *)
Variable strftime : string → datetime → string.

(** The four guarded assignments of [ChannelBox.set_config], in order. *)
Definition merge_config (config : Config) (b : ChannelBox) : ChannelBox :=
  let b := match conf_title config with
           | Some t => with_title (strip t) b
           | None => b
           end in
  let b := match conf_description config with
           | Some t => with_description (strip t) b
           | None => b
           end in
  let b := match conf_creation config with
           | Some d => with_creation (strftime "%x - %X" d) b
           | None => b
           end in
  match conf_type config with
  | Some t => with_type t b
  | None => b
  end.

(** [ChannelBox.set_config] *)
Definition set_config (self : nat) (config : Config) : M unit :=
  b <~ read_box self ;;
  write_box self (merge_config config b) ;;;
  display_config self ;;;
  emit (InvalidateBox self).

(** [ChannelBox.pubsub_config_clalback] *)
Definition pubsub_config_clalback (self : nat) (conf : Config) : M unit :=
  set_config self conf ;;;
  emit Notify.

End Locale.

(** ** Events *)

(** The two feed events that can reorder the list, addressed to the box
    that registered the callback. *)
Inductive event : Type :=
  | Post (self : nat) (atoms : list Atom)
  | Retract (self : nat) (item_ids : list string).

Definition target (ev : event) : nat :=
  match ev with Post i _ => i | Retract i _ => i end.

Definition apply_event (ev : event) : M unit :=
  match ev with
  | Post i atoms => pubsub_posts_callback i atoms
  | Retract i ids => pubsub_retract_callback i ids
  end.

Fixpoint apply_events (evs : list event) : M unit :=
  match evs with
  | [] => ret tt
  | ev :: rest => apply_event ev ;;; apply_events rest
  end.

(** A run of [make_active] calls on boxes. *)
Fixpoint activate_all (ids : list nat) : M unit :=
  match ids with
  | [] => ret tt
  | i :: rest => make_active (Some (WBox i)) ;;; activate_all rest
  end.

(** ** Predicates used in the statements *)

(** The order [sort_desc] establishes on decorated rows. *)
Definition desc (p q : datetime * widget) : Prop := q.1 ≤ p.1.

(** The timestamp a row sorts by, when it has one. *)
Definition activity (h : gmap nat ChannelBox) (w : widget) : option datetime :=
  match w with
  | WBox i => most_recent_activity <$> h !! i
  | WDivider _ => None
  end.

Definition key (h : gmap nat ChannelBox) (w : widget) : datetime :=
  default 0 (activity h w).

(** The rows from position 2 on, sorted as [sort_channels] sorts them. *)
Definition sorted_rows (h : gmap nat ChannelBox) (l : list widget) : list widget :=
  snd <$> sort_desc ((λ w, (key h w, w)) <$> l).

(** Position 0 holds a box of the user's own channel. *)
Definition self_channel_first (s : State) : Prop :=
  ∃ i b, channels s !! 0%nat = Some (WBox i) ∧ boxes s !! i = Some b ∧
         jid (channel b) = boundjid_bare s.

(** Position 1 holds a divider. *)
Definition divider_second (s : State) : Prop :=
  ∃ d, channels s !! 1%nat = Some (WDivider d).

(** Rows at positions 2 and up are boxes in descending order of
    [most_recent_activity]. *)
Definition sorted_by_activity (s : State) : Prop :=
  ∀ i j wi wj, (2 ≤ i)%nat → (i < j)%nat →
    channels s !! i = Some wi → channels s !! j = Some wj →
    ∃ ki kj, activity (boxes s) wi = Some ki ∧
             activity (boxes s) wj = Some kj ∧ kj ≤ ki.

Definition ordering_invariant (s : State) : Prop :=
  self_channel_first s ∧ divider_second s ∧ sorted_by_activity s.

(** Between [s] and [s'] the rows that share a timestamp in [s'] kept their
    relative order. *)
Definition keeps_ties (s s' : State) : Prop :=
  ∀ k, filter (λ w, key (boxes s') w = k) (drop 2 (channels s'))
     = filter (λ w, key (boxes s') w = k) (drop 2 (channels s)).

(** Every row from position 2 on is a box of the store. *)
Definition tail_resolves (s : State) : Prop :=
  Forall (λ w, is_Some (activity (boxes s) w)) (drop 2 (channels s)).

(** The active flag and [active_channel] agree, and the active box has
    nothing unread and an empty badge. *)
Record activation_invariant (s : State) : Prop := mkActivationInvariant {
  ai_active : ∀ i b, boxes s !! i = Some b →
                     (active b = true ↔ active_channel s = Some i);
  ai_resolves : ∀ i, active_channel s = Some i → is_Some (boxes s !! i);
  ai_clear : ∀ i b, boxes s !! i = Some b → active b = true →
                    unread_ids b = ∅ ∧ widget_notif b = ""
}.

Definition at_most_one_active (s : State) : Prop :=
  ∀ i j bi bj, boxes s !! i = Some bi → boxes s !! j = Some bj →
    active bi = true → active bj = true → i = j.


(** The state [sort_channels] ends in when it returns, with the focus at
    [pos]. *)
Definition sorted_state (s : State) (pos : nat) : State :=
  mkState (boxes s) (next_ref s)
    (take 2 (channels s) ++ sorted_rows (boxes s) (drop 2 (channels s)))
    pos (active_channel s) (boundjid_bare s) (status s) (infobar_left s)
    (infobar_right s) (InvalidateList :: calls s).

(** The box [pubsub_posts_callback] leaves behind when it returns. *)
Definition posted (atoms : list Atom) (b : ChannelBox) : ChannelBox :=
  let b1 := with_activity (scan_atoms atoms (most_recent_activity b)).1 b in
  if active b then b1
  else if most_recent_activity b =? _oldest_date then b1
  else
    let unread := unread_ids b ∪ list_to_set (atom_id <$> atoms) in
    if (0 <? size unread)%nat
    then with_notif (format_notif (size unread)) (with_unread unread b1)
    else with_unread unread b1.

(** The box [pubsub_retract_callback] leaves behind. *)
Definition retracted (item_ids : list string) (b : ChannelBox) : ChannelBox :=
  with_unread (unread_ids b ∖ list_to_set item_ids) b.

(** What the events need of the list, and keep: a focused row, boxes from
    position 2 on, in descending order of their timestamps. *)
Record list_ok (s : State) : Prop := mkListOk {
  lo_focus : is_Some (channels s !! focus s);
  lo_tail : tail_resolves s;
  lo_sorted : StronglySorted (λ w1 w2, key (boxes s) w2 ≤ key (boxes s) w1)
                (drop 2 (channels s))
}.

(** The box after [set_active(True)] and after [set_active(False)]. *)
Definition activated (b : ChannelBox) : ChannelBox :=
  with_unread ∅ (with_notif "" (with_style true (with_active true b))).

Definition deactivated (b : ChannelBox) : ChannelBox :=
  with_style false (with_active false b).

(** The state [make_active] ends in when it makes box [i], found as [b],
    the active one; [h] is the store once the previous active box, if any,
    has been deactivated. *)
Definition switched (s : State) (h : gmap nat ChannelBox) (i : nat)
    (b : ChannelBox) : State :=
  mkState (<[i := activated b]> h) (next_ref s) (channels s) (focus s)
    (Some i) (boundjid_bare s) (format_displaying (jid (channel b)))
    (format_dash (chan_title b) (chan_description b)) (jid (channel b))
    (SetActiveChannel (channel b) :: calls s).

(** The box [ChannelBox.__init__] builds, and the state it leaves. *)
Definition fresh_box (chan : Channel) (user dom : string) : ChannelBox :=
  mkChannelBox chan false ∅ user ("@" ++ dom)%string "" "" false "" "" "" ""
    _oldest_date.

Definition constructed (s : State) (chan : Channel) (user dom : string) : State :=
  mkState (<[next_ref s := fresh_box chan user dom]> (boxes s))
    (S (next_ref s)) (channels s) (focus s) (active_channel s)
    (boundjid_bare s) (status s) (infobar_left s) (infobar_right s)
    (GetPosts chan 1 :: GetConfig chan :: GetStatus chan :: SetCallbacks chan
       :: calls s).

(** What holds of the list while [load_channels] fills it: the focus stays
    at 0; every row is a box built by this load, still carrying the oldest
    date; and once the user's own jid has been met ([seen]), the first row
    is a box of that jid. *)
Record loading (me : string) (seen : Prop) (s : State) : Prop := mkLoading {
  ld_me : boundjid_bare s = me;
  ld_focus : focus s = 0%nat;
  ld_rows : Forall (λ w, ∃ i b, w = WBox i ∧ boxes s !! i = Some b ∧
                          most_recent_activity b = _oldest_date ∧
                          (i < next_ref s)%nat) (channels s);
  ld_self : seen → ∃ i b rest, channels s = WBox i :: rest ∧
                     boxes s !! i = Some b ∧ jid (channel b) = me
}.

(** ** A small registry to run the code on *)

Definition alice : Channel := mkChannel "alice@example.long.xyz" None.
Definition bob : Channel := mkChannel "bob@a.org" None.
Definition carol : Channel := mkChannel "carol@b.c.d" None.

(** The list before anything is loaded. *)
Definition started : State := ChannelsList_init "alice@example.long.xyz".

(** After [load_channels] with three subscriptions: rows
    [alice; divider; bob; carol], held by objects 1, 3, 0 and 2. *)
Definition loaded : State :=
  final (load_channels (Fetched alice) (Fetched [bob; alice; carol]) started).

(** Both other channels have answered the probe of their constructor. *)
Definition probed : State :=
  final (apply_events
           [Post 0%nat [mkAtom "b0" 10 "hello"];
            Post 2%nat [mkAtom "c0" 5 "hi"]] loaded).

(** Two more posts for carol arrive while alice is displayed. *)
Definition unread_two : State :=
  final (pubsub_posts_callback 2%nat
           [mkAtom "c1" 20 "one"; mkAtom "c2" 21 "two"] probed).

(** A locale for the examples: it prints a date as its seconds since the
    epoch, whatever the format. *)
Definition epoch_seconds (fmt : string) (d : datetime) : string :=
  "day " ++ NilZero.string_of_int (Z.to_int d).

(** The focus is on bob's row and carol's box has just been given a later
    date: the state in which [pubsub_posts_callback] calls
    [sort_channels]. *)
Definition before_sort : State :=
  final ((set_focus 2%nat ;;;
          b <~ read_box 2%nat ;;
          write_box 2%nat (with_activity 7 b)) loaded).

(** ** Sorting *)

Lemma insert_desc_perm x l : insert_desc x l ≡ₚ x :: l.
Proof.
  induction l as [|y l IH]; simpl; [done|].
  destruct (y.1 >? x.1); [|done].
  rewrite IH. apply Permutation_swap.
Qed.

Lemma sort_desc_perm l : sort_desc l ≡ₚ l.
Proof.
  induction l as [|x l IH]; simpl; [done|].
  rewrite insert_desc_perm. by rewrite IH.
Qed.

Lemma insert_desc_sorted x l :
  StronglySorted desc l → StronglySorted desc (insert_desc x l).
Proof.
  induction 1 as [|y l Hs IH Hy]; simpl.
  - repeat constructor.
  - destruct (Z.gtb_spec y.1 x.1) as [Hgt|Hle].
    + constructor; [done|].
      rewrite insert_desc_perm. constructor; [unfold desc; lia | done].
    + constructor; [by constructor|].
      constructor; [done|].
      eapply Forall_impl; [exact Hy|]. unfold desc. intros z ?. lia.
Qed.

Lemma sort_desc_sorted l : StronglySorted desc (sort_desc l).
Proof.
  induction l as [|x l IH]; simpl; [constructor|].
  by apply insert_desc_sorted.
Qed.

Lemma insert_desc_filter k x l :
  filter (λ p : datetime * widget, p.1 = k) (insert_desc x l)
  = filter (λ p : datetime * widget, p.1 = k) (x :: l).
Proof.
  induction l as [|y l IH]; simpl; [done|].
  destruct (Z.gtb_spec y.1 x.1) as [Hgt|Hle]; [|done].
  rewrite filter_cons, IH, !filter_cons.
  repeat case_decide; simplify_eq/=; try done; lia.
Qed.

Lemma sort_desc_filter k l :
  filter (λ p : datetime * widget, p.1 = k) (sort_desc l)
  = filter (λ p : datetime * widget, p.1 = k) l.
Proof.
  induction l as [|x l IH]; simpl; [done|].
  by rewrite insert_desc_filter, !filter_cons, IH.
Qed.

Lemma sorted_rows_perm h l : sorted_rows h l ≡ₚ l.
Proof.
  unfold sorted_rows. rewrite sort_desc_perm, <- list_fmap_compose.
  by rewrite list_fmap_id.
Qed.

Lemma sorted_rows_length h l : length (sorted_rows h l) = length l.
Proof. by rewrite sorted_rows_perm. Qed.

Lemma sorted_rows_sorted h l :
  StronglySorted (λ w1 w2, key h w2 ≤ key h w1) (sorted_rows h l).
Proof.
  unfold sorted_rows.
  assert (Hk : Forall (λ p, p.1 = key h p.2)
                 (sort_desc ((λ w, (key h w, w)) <$> l))).
  { rewrite sort_desc_perm. apply Forall_fmap, Forall_true. done. }
  pose proof (sort_desc_sorted ((λ w, (key h w, w)) <$> l)) as Hs.
  induction Hs as [|p ps Hs IH Hp]; simpl; [constructor|].
  apply Forall_cons in Hk as [Hk1 Hk2].
  constructor; [by apply IH|].
  apply Forall_fmap. rewrite Forall_forall in Hp, Hk2 |- *.
  intros q Hq. simpl. specialize (Hp q Hq). specialize (Hk2 q Hq).
  unfold desc in Hp. by rewrite <- Hk1, <- Hk2.
Qed.

Lemma sorted_rows_stable h l k :
  filter (λ w, key h w = k) (sorted_rows h l) = filter (λ w, key h w = k) l.
Proof.
  unfold sorted_rows.
  assert (Hm : ∀ ps : list (datetime * widget),
             Forall (λ p, p.1 = key h p.2) ps →
             filter (λ w, key h w = k) (snd <$> ps)
             = snd <$> filter (λ p : datetime * widget, p.1 = k) ps).
  { induction 1 as [|p ps Hp _ IH]; [done|].
    rewrite fmap_cons, !filter_cons, IH.
    repeat case_decide; rewrite ?fmap_cons; congruence. }
  rewrite Hm.
  - rewrite sort_desc_filter, <- Hm.
    + by rewrite <- list_fmap_compose, list_fmap_id.
    + apply Forall_fmap, Forall_true. done.
  - rewrite sort_desc_perm. apply Forall_fmap, Forall_true. done.
Qed.

(** ** The list walker *)

Lemma index_lookup x l pos : index x l = Some pos → l !! pos = Some x.
Proof.
  revert pos. induction l as [|y l IH]; intros pos; simpl; [done|].
  case_decide as Hy.
  - intros [= <-]. by subst.
  - destruct (index x l) as [n|] eqn:Hi; simpl; [|done].
    intros [= <-]. simpl. by apply IH.
Qed.

Lemma index_elem_of x l : x ∈ l → is_Some (index x l).
Proof.
  induction 1 as [x l|x y l _ IH]; simpl.
  - rewrite decide_True by done. eauto.
  - case_decide; [eauto|]. destruct IH as [n ->]. simpl. eauto.
Qed.

Lemma index_None x l : x ∉ l → index x l = None.
Proof.
  induction l as [|y l IH]; simpl; [done|].
  intros Hx. apply not_elem_of_cons in Hx as [Hne Hx].
  rewrite decide_False by done. by rewrite IH.
Qed.

Lemma modified_id s : (focus s < length (channels s))%nat → _modified s = s.
Proof.
  intros Hf. unfold _modified.
  destruct (Nat.leb_spec (length (channels s)) (focus s)); [lia|done].
Qed.

Lemma key_of_ok w s k :
  activity (boxes s) w = Some k → key_of w s = Ret k s.
Proof.
  destruct w as [i|d]; simpl; [|done].
  unfold bind, read_box, ret.
  destruct (boxes s !! i) as [b|]; simpl; [|done]. by intros [= <-].
Qed.

Lemma key_of_final w s : final (key_of w s) = s.
Proof.
  destruct w as [i|d]; simpl; [|done].
  unfold bind, read_box, ret. by destruct (boxes s !! i).
Qed.

Lemma decorate_ok l s :
  Forall (λ w, is_Some (activity (boxes s) w)) l →
  decorate l s = Ret ((λ w, (key (boxes s) w, w)) <$> l) s.
Proof.
  induction 1 as [|w l [k Hk] _ IH]; [done|].
  simpl. unfold bind at 1. rewrite (key_of_ok _ _ _ Hk).
  unfold bind at 1. rewrite IH. unfold ret, key. by rewrite Hk.
Qed.

Lemma decorate_final l s : final (decorate l s) = s.
Proof.
  induction l as [|w l IH]; [done|].
  simpl. unfold bind at 1.
  pose proof (key_of_final w s) as Hk.
  destruct (key_of w s) as [k s1|e s1]; simpl in Hk; subst s1; [|done].
  unfold bind at 1. destruct (decorate l s) as [r s1|e s1]; simpl in *; by subst.
Qed.

Lemma sorted_list_perm h (l : list widget) :
  (take 2 l ++ sorted_rows h (drop 2 l))%list ≡ₚ l.
Proof. by rewrite sorted_rows_perm, take_drop. Qed.

Lemma sorted_list_length h (l : list widget) :
  length (take 2 l ++ sorted_rows h (drop 2 l))%list = length l.
Proof. by rewrite sorted_list_perm. Qed.

Lemma get_focus_ok s w :
  channels s !! focus s = Some w → get_focus s = Ret (Some w) s.
Proof.
  intros Hw. unfold get_focus. rewrite Hw.
  by destruct (channels s).
Qed.

Lemma get_focus_empty s : channels s = [] → get_focus s = Ret None s.
Proof. intros Hl. unfold get_focus. by rewrite Hl. Qed.

(** [sort_channels] returns whenever the list has a focused row and every
    row from position 2 on is a box; the result is spelled out. *)
Lemma sort_channels_spec s w :
  channels s !! focus s = Some w →
  tail_resolves s →
  ∃ pos, sort_channels s = Ret tt (sorted_state s pos) ∧
         index w (channels (sorted_state s pos)) = Some pos.
Proof.
  intros Hw Ht.
  assert (Hlen : (focus s < length (channels s))%nat)
    by (by apply lookup_lt_Some in Hw).
  set (l' := (take 2 (channels s) ++ sorted_rows (boxes s) (drop 2 (channels s)))%list).
  assert (Hin : w ∈ l').
  { unfold l'. rewrite sorted_list_perm. by eapply list_elem_of_lookup_2. }
  destruct (index_elem_of _ _ Hin) as [pos Hpos].
  exists pos. split; [|done].
  unfold sort_channels, bind at 1. rewrite (get_focus_ok _ _ Hw).
  unfold bind at 1, gets. unfold bind at 1.
  rewrite (decorate_ok _ _ Ht).
  unfold bind at 1, set_channels, modify.
  fold (sorted_rows (boxes s) (drop 2 (channels s))). fold l'.
  rewrite modified_id by (simpl; unfold l'; rewrite sorted_list_length; lia).
  unfold bind at 1, gets. simpl. rewrite Hpos.
  unfold bind, set_focus, modify, emit, modify. simpl.
  rewrite modified_id; [done|].
  simpl. apply index_lookup, lookup_lt_Some in Hpos. done.
Qed.

Lemma activity_insert_same_key h i b b' w :
  h !! i = Some b →
  most_recent_activity b' = most_recent_activity b →
  activity (<[i := b']> h) w = activity h w.
Proof.
  intros Hb Hk. destruct w as [j|d]; simpl; [|done].
  destruct (decide (i = j)) as [->|Hne].
  - rewrite lookup_insert_eq, Hb. simpl. by rewrite Hk.
  - by rewrite lookup_insert_ne.
Qed.

Lemma activity_insert_is_Some h i b b' w :
  h !! i = Some b →
  is_Some (activity h w) → is_Some (activity (<[i := b']> h) w).
Proof.
  intros Hb. destruct w as [j|d]; simpl; [|done].
  destruct (decide (i = j)) as [->|Hne].
  - rewrite lookup_insert_eq. simpl. eauto.
  - by rewrite lookup_insert_ne.
Qed.

Lemma sorted_rows_ext h h' l :
  (∀ w, key h w = key h' w) → sorted_rows h l = sorted_rows h' l.
Proof.
  intros Hk. unfold sorted_rows. do 2 f_equal.
  apply list_fmap_ext. intros _ w _. by rewrite Hk.
Qed.

Lemma scan_atoms_fst atoms start :
  (scan_atoms atoms start).1 = foldl (λ m a, Z.max m (published a)) start atoms.
Proof.
  unfold scan_atoms. generalize false.
  revert start. induction atoms as [|a atoms IH]; intros start c; simpl; [done|].
  destruct (Z.gtb_spec (published a) start).
  - rewrite IH. f_equal. lia.
  - rewrite IH. f_equal. lia.
Qed.

Lemma scan_atoms_ge atoms start : start ≤ (scan_atoms atoms start).1.
Proof.
  rewrite scan_atoms_fst. revert start.
  induction atoms as [|a atoms IH]; intros start; simpl; [lia|].
  etrans; [|apply IH]. lia.
Qed.

Lemma scan_atoms_unchanged atoms start :
  (scan_atoms atoms start).2 = false → (scan_atoms atoms start).1 = start.
Proof.
  unfold scan_atoms.
  assert (H : ∀ c, (foldl (λ acc atom,
             if published atom >? acc.1 then (published atom, true) else acc)
             (start, c) atoms).2 = false →
          (foldl (λ acc atom,
             if published atom >? acc.1 then (published atom, true) else acc)
             (start, c) atoms).1 = start); [|apply H].
  revert start. induction atoms as [|a atoms IH]; intros start c; simpl; [done|].
  destruct (Z.gtb_spec (published a) start); [|apply IH].
  intros Hf. exfalso. revert Hf. clear.
  generalize (published a). intros z. revert z.
  induction atoms as [|a' atoms IH]; intros z; simpl; [done|].
  destruct (published a' >? z); apply IH.
Qed.

Lemma fold_add_ids (u : gset string) atoms :
  foldl (λ u a, {[atom_id a]} ∪ u) u atoms = u ∪ list_to_set (atom_id <$> atoms).
Proof.
  revert u. induction atoms as [|a atoms IH]; intros u; simpl.
  - by rewrite (right_id_L ∅ (∪)).
  - rewrite IH. apply set_eq. intros x. set_unfold. tauto.
Qed.

Lemma fold_discard_ids (u : gset string) ids :
  foldl (λ u id_, u ∖ {[id_]}) u ids = u ∖ list_to_set ids.
Proof.
  revert u. induction ids as [|a ids IH]; intros u; simpl.
  - apply set_eq. intros x. set_unfold. tauto.
  - rewrite IH. apply set_eq. intros x. set_unfold. tauto.
Qed.
Lemma key_insert_insert h i b1 b2 w :
  most_recent_activity b1 = most_recent_activity b2 →
  key (<[i := b1]> h) w = key (<[i := b2]> h) w.
Proof.
  intros Hk. unfold key. destruct w as [j|d]; simpl; [|done].
  destruct (decide (i = j)) as [->|Hne].
  - rewrite !lookup_insert_eq. simpl. by rewrite Hk.
  - by rewrite !lookup_insert_ne.
Qed.

Lemma posted_activity atoms b :
  most_recent_activity (posted atoms b)
  = (scan_atoms atoms (most_recent_activity b)).1.
Proof.
  unfold posted.
  destruct (active b); [done|].
  destruct (most_recent_activity b =? _oldest_date); [done|].
  by destruct (0 <? size _)%nat.
Qed.

Lemma posts_callback_spec self atoms s b w :
  boxes s !! self = Some b →
  channels s !! focus s = Some w →
  tail_resolves s →
  ∃ s',
    pubsub_posts_callback self atoms s = Ret tt s' ∧
    boxes s' = <[self := posted atoms b]> (boxes s) ∧
    channels s' =
      (if (scan_atoms atoms (most_recent_activity b)).2
       then (take 2 (channels s) ++ sorted_rows (boxes s') (drop 2 (channels s)))%list
       else channels s) ∧
    channels s' !! focus s' = Some w ∧
    next_ref s' = next_ref s ∧ active_channel s' = active_channel s ∧
    boundjid_bare s' = boundjid_bare s ∧ status s' = status s.
Proof.
  intros Hb Hw Ht.
  pose proof (posted_activity atoms b) as Hpa.
  unfold pubsub_posts_callback. unfold bind at 1, read_box. rewrite Hb.
  destruct (scan_atoms atoms (most_recent_activity b)) as [recent changed] eqn:Hscan.
  unfold bind at 1, write_box, modify.
  set (s1 := set_boxes _ s).
  assert (Hrest : ∀ s2, boxes s2 = boxes s1 →
    ∃ s',
      (b' <~ read_box self ;;
       (if active b' then emit (AddNewItems atoms)
       else if negb (most_recent_activity b =? _oldest_date) then
         let unread := foldl (λ u a, {[atom_id a]} ∪ u) (unread_ids b') atoms in
         write_box self (with_unread unread b') ;;;
         let nb_unread := size unread in
         if (0 <? nb_unread)%nat then
           b' <~ read_box self ;;
           write_box self (with_notif (format_notif nb_unread) b') ;;;
           emit (InvalidateBox self)
         else ret tt
       else ret tt) ;;; emit Notify) s2 = Ret tt s' ∧
      boxes s' = <[self := posted atoms b]> (boxes s) ∧
      channels s' = channels s2 ∧ focus s' = focus s2 ∧
      next_ref s' = next_ref s2 ∧ active_channel s' = active_channel s2 ∧
      boundjid_bare s' = boundjid_bare s2 ∧ status s' = status s2).
  { intros s2 Hs2. unfold bind at 1, read_box.
    rewrite Hs2. unfold s1 at 1. simpl. rewrite lookup_insert_eq. simpl.
    rewrite fold_add_ids. unfold posted. rewrite Hscan. simpl.
    destruct (active b); [|destruct (most_recent_activity b =? _oldest_date); simpl;
      [|destruct (0 <? size _)%nat]];
      unfold bind, write_box, read_box, emit, modify, ret; simpl;
      rewrite ?Hs2; simpl; rewrite ?lookup_insert_eq, ?insert_insert_eq;
      (eexists; split; [reflexivity|]); simpl;
      rewrite ?insert_insert_eq; done. }
  destruct changed.
  - destruct (sort_channels_spec s1 w) as (pos & Hsort & Hidx); [done| |].
    { unfold tail_resolves, s1. simpl. eapply Forall_impl; [exact Ht|].
      intros w'. by apply (activity_insert_is_Some _ _ b). }
    unfold bind at 1. rewrite Hsort.
    destruct (Hrest (sorted_state s1 pos) eq_refl)
      as (s' & Hrun & Hbx & Hch & Hfo & Hnx & Hac & Hbj & Hst).
    exists s'. split; [exact Hrun|]. split; [done|].
    rewrite Hch, Hfo, Hnx, Hac, Hbj, Hst, Hbx. simpl.
    split_and!; try done.
    + f_equal. apply sorted_rows_ext. intros w'.
      apply key_insert_insert. by rewrite Hpa.
    + by apply index_lookup.
  - unfold bind at 1, ret.
    destruct (Hrest s1 eq_refl)
      as (s' & Hrun & Hbx & Hch & Hfo & Hnx & Hac & Hbj & Hst).
    exists s'. split; [exact Hrun|]. split; [done|].
    rewrite Hch, Hfo, Hnx, Hac, Hbj, Hst. done.
Qed.

Lemma sort_channels_boxes s : boxes (final (sort_channels s)) = boxes s.
Proof.
  unfold sort_channels, bind at 1, get_focus.
  assert (Hrest : ∀ fw,
    boxes (final ((l <~ gets channels ;;
      let sortable_chans := drop 2 l in
      keyed <~ decorate sortable_chans ;;
      set_channels (take 2 l ++ (snd <$> sort_desc keyed)) ;;;
      l' <~ gets channels ;;
      match fw with
      | None => raise ValueError
      | Some w =>
          match index w l' with
          | None => raise ValueError
          | Some focus_pos => set_focus focus_pos ;;; emit InvalidateList
          end
      end) s)) = boxes s).
  { intros fw. unfold bind at 1, gets. cbv zeta. unfold bind at 1.
    pose proof (decorate_final (drop 2 (channels s)) s) as Hd.
    destruct (decorate _ s) as [keyed s1|e s1]; simpl in Hd; subst s1; [|done].
    unfold bind, set_channels, set_focus, modify, gets, emit, raise, modify,
      _modified.
    repeat (simpl; try case_match; try done). }
  destruct (channels s) eqn:Hl; [apply (Hrest None)|].
  destruct (_ !! _) as [w0|]; [apply (Hrest (Some w0))|done].
Qed.

Lemma retract_callback_boxes self ids s b :
  boxes s !! self = Some b →
  boxes (final (pubsub_retract_callback self ids s))
  = <[self := retracted ids b]> (boxes s).
Proof.
  intros Hb. unfold pubsub_retract_callback.
  unfold bind at 1, read_box. rewrite Hb.
  unfold bind at 1, write_box, modify. rewrite fold_discard_ids.
  fold (retracted ids b).
  unfold bind at 1.
  destruct (active b); unfold emit, modify, ret;
    match goal with |- context [sort_channels ?s1] =>
      pose proof (sort_channels_boxes s1) as Hs;
      destruct (sort_channels s1); simpl in *; by rewrite Hs
    end.
Qed.

Lemma retract_callback_spec self ids s b w :
  boxes s !! self = Some b →
  channels s !! focus s = Some w →
  tail_resolves s →
  ∃ s',
    pubsub_retract_callback self ids s = Ret tt s' ∧
    boxes s' = <[self := retracted ids b]> (boxes s) ∧
    channels s' =
      (take 2 (channels s) ++ sorted_rows (boxes s') (drop 2 (channels s)))%list ∧
    channels s' !! focus s' = Some w ∧
    next_ref s' = next_ref s ∧ active_channel s' = active_channel s ∧
    boundjid_bare s' = boundjid_bare s ∧ status s' = status s.
Proof.
  intros Hb Hw Ht.
  unfold pubsub_retract_callback.
  unfold bind at 1, read_box. rewrite Hb.
  unfold bind at 1, write_box, modify. rewrite fold_discard_ids.
  fold (retracted ids b).
  unfold bind at 1.
  assert (Hs : ∀ s1, boxes s1 = <[self := retracted ids b]> (boxes s) →
                channels s1 = channels s → focus s1 = focus s →
                ∃ pos, sort_channels s1 = Ret tt (sorted_state s1 pos) ∧
                       index w (channels (sorted_state s1 pos)) = Some pos).
  { intros s1 H1 H2 H3. apply sort_channels_spec.
    - by rewrite H2, H3.
    - unfold tail_resolves. rewrite H1, H2.
      eapply Forall_impl; [exact Ht|].
      intros w'. by apply (activity_insert_is_Some _ _ b). }
  destruct (active b); unfold emit, modify, ret;
    match goal with |- context [sort_channels ?s1] =>
      destruct (Hs s1) as (pos & -> & Hidx); [done..|]
    end;
    simpl; (eexists; split; [reflexivity|]); simpl;
    (split_and!; try done); by apply index_lookup.
Qed.

(** ** The ordering invariant under feed events *)

Lemma StronglySorted_weaken {A} (R R' : A → A → Prop) l :
  (∀ x y, R x y → R' x y) → StronglySorted R l → StronglySorted R' l.
Proof.
  intros HR. induction 1 as [|x l _ IH Hx]; constructor; [done|].
  eapply Forall_impl; [exact Hx|]. auto.
Qed.

Lemma drop_sorted_list h (l : list widget) :
  drop 2 (take 2 l ++ sorted_rows h (drop 2 l))%list = sorted_rows h (drop 2 l).
Proof. by destruct l as [|w0 [|w1 l]]. Qed.

Lemma lookup_sorted_list h (l : list widget) i :
  (i < 2)%nat → (take 2 l ++ sorted_rows h (drop 2 l))%list !! i = l !! i.
Proof.
  intros Hi. destruct l as [|w0 [|w1 l]]; destruct i as [|[|i]]; try done; lia.
Qed.

Lemma posted_channel atoms b : channel (posted atoms b) = channel b.
Proof.
  unfold posted. destruct (active b); [done|].
  destruct (most_recent_activity b =? _oldest_date); [done|].
  by destruct (0 <? size _)%nat.
Qed.

Lemma posted_active atoms b : active (posted atoms b) = active b.
Proof.
  unfold posted. destruct (active b) eqn:Ha; [done|].
  destruct (most_recent_activity b =? _oldest_date); [done|].
  by destruct (0 <? size _)%nat.
Qed.

Lemma key_insert_same h i b b' w :
  h !! i = Some b →
  most_recent_activity b' = most_recent_activity b →
  key (<[i := b']> h) w = key h w.
Proof. intros. unfold key. by erewrite activity_insert_same_key. Qed.

Lemma sorted_by_activity_of_list_ok s : list_ok s → sorted_by_activity s.
Proof.
  intros [_ Ht Hs] i j wi wj Hi Hij Hwi Hwj.
  unfold tail_resolves in Ht.
  assert (Hdi : drop 2 (channels s) !! (i - 2)%nat = Some wi).
  { rewrite lookup_drop. by replace (2 + (i - 2))%nat with i by lia. }
  assert (Hdj : drop 2 (channels s) !! (j - 2)%nat = Some wj).
  { rewrite lookup_drop. by replace (2 + (j - 2))%nat with j by lia. }
  destruct (proj1 (Forall_lookup _ _) Ht _ _ Hdi) as [ki Hki].
  destruct (proj1 (Forall_lookup _ _) Ht _ _ Hdj) as [kj Hkj].
  exists ki, kj. split_and!; [done..|].
  revert Hs Hdi Hdj. generalize (drop 2 (channels s)).
  assert (Hlt : (i - 2 < j - 2)%nat) by lia. revert Hlt.
  generalize (i - 2)%nat (j - 2)%nat. clear -Hki Hkj.
  intros n m Hnm l Hs. revert n m Hnm.
  induction Hs as [|w l Hs IH Hw]; intros n m Hnm Hn Hm; [done|].
  destruct m as [|m]; [lia|]. simpl in Hm.
  destruct n as [|n]; simpl in Hn.
  - simplify_eq. rewrite Forall_forall in Hw.
    specialize (Hw wj (list_elem_of_lookup_2 _ _ _ Hm)).
    unfold key in Hw. by rewrite Hki, Hkj in Hw.
  - eapply IH; [|done..]. lia.
Qed.

Lemma event_step s ev :
  list_ok s → self_channel_first s → divider_second s →
  is_Some (boxes s !! target ev) →
  ∃ s', apply_event ev s = Ret tt s' ∧
        list_ok s' ∧ self_channel_first s' ∧ divider_second s' ∧
        keeps_ties s s' ∧
        (∀ i, is_Some (boxes s' !! i) ↔ is_Some (boxes s !! i)).
Proof.
  intros [[w Hw] Ht Hs] (i0 & b0 & H0 & Hb0 & Hj0) (d & Hd) [b Hb].
  assert (Hgen : ∀ s' b' (sorted : bool),
    boxes s' = <[target ev := b']> (boxes s) →
    channel b' = channel b →
    (sorted = false → most_recent_activity b' = most_recent_activity b) →
    channels s' = (if sorted
       then (take 2 (channels s) ++ sorted_rows (boxes s') (drop 2 (channels s)))%list
       else channels s) →
    channels s' !! focus s' = Some w →
    boundjid_bare s' = boundjid_bare s →
    list_ok s' ∧ self_channel_first s' ∧ divider_second s' ∧ keeps_ties s s' ∧
    (∀ i, is_Some (boxes s' !! i) ↔ is_Some (boxes s !! i))).
  { intros s' b' sorted Hbx Hc Hk Hch Hf Hbj.
    assert (Hres : ∀ w', is_Some (activity (boxes s) w') →
                         is_Some (activity (boxes s') w')).
    { intros w'. rewrite Hbx. by apply (activity_insert_is_Some _ _ b). }
    assert (H0' : channels s' !! 0%nat = channels s !! 0%nat).
    { rewrite Hch. destruct sorted; [|done]. apply lookup_sorted_list; lia. }
    assert (H1' : channels s' !! 1%nat = channels s !! 1%nat).
    { rewrite Hch. destruct sorted; [|done]. apply lookup_sorted_list; lia. }
    split_and!.
    - split; [eauto| |].
      + unfold tail_resolves. rewrite Hch. destruct sorted.
        * rewrite drop_sorted_list, sorted_rows_perm.
          eapply Forall_impl; [exact Ht|]. exact Hres.
        * eapply Forall_impl; [exact Ht|]. exact Hres.
      + rewrite Hch. destruct sorted.
        * rewrite drop_sorted_list. apply sorted_rows_sorted.
        * assert (Hke : ∀ w', key (boxes s') w' = key (boxes s) w').
          { intros w'. rewrite Hbx. apply (key_insert_same _ _ b); auto. }
          eapply StronglySorted_weaken; [|exact Hs]; simpl.
          intros. by rewrite !Hke.
    - destruct (decide (target ev = i0)) as [Heq|Hne].
      + exists i0, b'. rewrite H0', Hbx, Heq, lookup_insert_eq.
        split_and!; [done..|]. rewrite Hc, Hbj.
        rewrite Heq in Hb. by simplify_eq.
      + exists i0, b0. rewrite H0', Hbx, lookup_insert_ne by done.
        by rewrite Hbj.
    - exists d. by rewrite H1'.
    - intros k. rewrite Hch. destruct sorted; [|done].
      by rewrite drop_sorted_list, sorted_rows_stable.
    - intros i. rewrite Hbx. destruct (decide (target ev = i)) as [<-|Hne].
      + rewrite lookup_insert_eq, Hb. split; eauto.
      + by rewrite lookup_insert_ne. }
  destruct ev as [self atoms|self ids]; simpl in *.
  - destruct (posts_callback_spec self atoms s b w Hb Hw Ht)
      as (s' & Hrun & Hbx & Hch & Hf & _ & _ & Hbj & _).
    exists s'. split; [done|].
    apply (Hgen s' (posted atoms b)
             (scan_atoms atoms (most_recent_activity b)).2); try done.
    + apply posted_channel.
    + intros Hu. rewrite posted_activity. by apply scan_atoms_unchanged.
  - destruct (retract_callback_spec self ids s b w Hb Hw Ht)
      as (s' & Hrun & Hbx & Hch & Hf & _ & _ & Hbj & _).
    exists s'. split; [done|].
    by apply (Hgen s' (retracted ids b) true).
Qed.

Lemma events_run s evs :
  list_ok s → self_channel_first s → divider_second s →
  Forall (λ ev, is_Some (boxes s !! target ev)) evs →
  ∃ s', apply_events evs s = Ret tt s' ∧
        list_ok s' ∧ self_channel_first s' ∧ divider_second s' ∧
        (∀ i, is_Some (boxes s' !! i) ↔ is_Some (boxes s !! i)).
Proof.
  intros Hok Hself Hdiv Hev. revert s Hok Hself Hdiv Hev.
  induction evs as [|ev evs IH]; intros s Hok Hself Hdiv Hev.
  - exists s. by split_and!.
  - apply Forall_cons in Hev as [Hev1 Hev2].
    destruct (event_step s ev Hok Hself Hdiv Hev1)
      as (s1 & Hrun & Hok1 & Hself1 & Hdiv1 & _ & Hdom).
    destruct (IH s1 Hok1 Hself1 Hdiv1) as (s' & Hrun' & Hok' & Hs' & Hd' & Hdom').
    { eapply Forall_impl; [exact Hev2|]. intros ev' ?. by apply Hdom. }
    exists s'. simpl. unfold bind. rewrite Hrun.
    split_and!; try done. intros i. by rewrite Hdom', Hdom.
Qed.

(** ** Construction and activation *)

Lemma ChannelBox_init_inv chan s w s' :
  ChannelBox_init chan s = Ret w s' →
  ∃ user domain dom,
    split_once "@"%char (jid chan) = Some (user, domain) ∧
    initials (split_all "."%char domain) = Some dom ∧
    requests chan = None ∧
    w = next_ref s ∧ s' = constructed s chan user dom.
Proof.
  unfold ChannelBox_init.
  destruct (split_once _ _) as [[user domain]|] eqn:H1; [|done].
  destruct (initials _) as [dom|] eqn:H2; [|done].
  unfold bind at 1, emit, modify.
  destruct (requests chan) eqn:H3; [done|].
  unfold bind, emit, modify, new_ref, write_box, modify, ret. simpl.
  intros [= <- <-]. by exists user, domain, dom.
Qed.

Lemma ChannelBox_init_ok chan s user domain dom :
  split_once "@"%char (jid chan) = Some (user, domain) →
  initials (split_all "."%char domain) = Some dom →
  requests chan = None →
  ChannelBox_init chan s = Ret (next_ref s) (constructed s chan user dom).
Proof.
  intros H1 H2 H3. unfold ChannelBox_init. rewrite H1, H2.
  unfold bind at 1, emit, modify. rewrite H3. done.
Qed.

Lemma set_active_true s i b :
  boxes s !! i = Some b →
  set_active i true s
  = Ret tt (set_infobars (format_dash (chan_title b) (chan_description b))
              (jid (channel b))
              (set_boxes (<[i := activated b]> (boxes s)) s)).
Proof.
  intros Hb. unfold set_active, bind at 1, read_box. rewrite Hb.
  unfold bind, write_box, read_box, display_config, modify, bind, read_box.
  simpl. rewrite lookup_insert_eq. simpl. rewrite lookup_insert_eq. simpl.
  unfold set_infobars, set_boxes. simpl. by rewrite !insert_insert_eq.
Qed.

Lemma set_active_false s i b :
  boxes s !! i = Some b →
  set_active i false s
  = Ret tt (set_boxes (<[i := deactivated b]> (boxes s)) s).
Proof.
  intros Hb. unfold set_active, bind at 1, read_box. rewrite Hb.
  unfold bind, write_box, read_box, modify.
  simpl. rewrite lookup_insert_eq. simpl.
  unfold set_boxes. simpl. by rewrite !insert_insert_eq.
Qed.

Lemma set_active_dangling s i act :
  boxes s !! i = None → set_active i act s = Raise DanglingRef s.
Proof.
  intros Hb. unfold set_active, bind at 1, read_box. by rewrite Hb.
Qed.

(** Activating the box that is already active returns at once. *)
Lemma make_active_same s i :
  active_channel s = Some i → make_active (Some (WBox i)) s = Ret tt s.
Proof.
  intros Ha. unfold make_active, bind, gets. rewrite Ha. simpl.
  by rewrite decide_True.
Qed.

Lemma make_active_first s i b :
  active_channel s = None → boxes s !! i = Some b →
  make_active (Some (WBox i)) s = Ret tt (switched s (boxes s) i b).
Proof.
  intros Ha Hb. unfold make_active, bind at 1, gets. rewrite Ha. simpl.
  unfold bind at 1, read_box. rewrite Hb.
  unfold bind at 1, modify. unfold bind at 1, ret.
  unfold bind at 1, modify. unfold bind at 1.
  rewrite (set_active_true _ _ b) by done.
  unfold bind, read_box, emit, modify. simpl. by rewrite lookup_insert_eq.
Qed.

Lemma make_active_switch s i b o bo :
  active_channel s = Some o → o ≠ i →
  boxes s !! i = Some b → boxes s !! o = Some bo →
  make_active (Some (WBox i)) s
  = Ret tt (switched s (<[o := deactivated bo]> (boxes s)) i b).
Proof.
  intros Ha Hne Hb Hbo. unfold make_active, bind at 1, gets. rewrite Ha. simpl.
  rewrite decide_False by congruence.
  unfold bind at 1, read_box. rewrite Hb.
  unfold bind at 1, modify. unfold bind at 1.
  rewrite (set_active_false _ _ bo) by done.
  unfold bind at 1, modify. unfold bind at 1.
  rewrite (set_active_true _ _ b) by (simpl; by rewrite lookup_insert_ne).
  unfold bind, read_box, emit, modify. simpl. by rewrite lookup_insert_eq.
Qed.

Lemma make_active_inv s i s' :
  make_active (Some (WBox i)) s = Ret tt s' →
  (active_channel s = Some i ∧ s' = s) ∨
  (∃ b, active_channel s = None ∧ boxes s !! i = Some b ∧
        s' = switched s (boxes s) i b) ∨
  (∃ b o bo, active_channel s = Some o ∧ o ≠ i ∧ boxes s !! i = Some b ∧
        boxes s !! o = Some bo ∧
        s' = switched s (<[o := deactivated bo]> (boxes s)) i b).
Proof.
  intros Hrun.
  destruct (active_channel s) as [o|] eqn:Ha.
  - destruct (decide (o = i)) as [->|Hne].
    + left. rewrite make_active_same in Hrun by done. by simplify_eq.
    + right; right.
      destruct (boxes s !! i) as [b|] eqn:Hb.
      * destruct (boxes s !! o) as [bo|] eqn:Hbo.
        -- rewrite (make_active_switch s i b o bo) in Hrun by done.
           simplify_eq. by exists b, o, bo.
        -- exfalso. revert Hrun. unfold make_active, bind at 1, gets.
           rewrite Ha. simpl. rewrite decide_False by congruence.
           unfold bind at 1, read_box. rewrite Hb.
           unfold bind at 1, modify. unfold bind at 1.
           by rewrite set_active_dangling.
      * exfalso. revert Hrun. unfold make_active, bind at 1, gets.
        rewrite Ha. simpl. rewrite decide_False by congruence.
        unfold bind at 1, read_box. by rewrite Hb.
  - right; left.
    destruct (boxes s !! i) as [b|] eqn:Hb.
    + rewrite (make_active_first s i b) in Hrun by done.
      simplify_eq. by exists b.
    + exfalso. revert Hrun. unfold make_active, bind at 1, gets.
      rewrite Ha. simpl.
      unfold bind at 1, read_box. by rewrite Hb.
Qed.

(** ** Activation *)

Lemma at_most_one_of_invariant s : activation_invariant s → at_most_one_active s.
Proof.
  intros [Ha _ _] i j bi bj Hi Hj Hai Haj.
  apply (Ha _ _ Hi) in Hai. apply (Ha _ _ Hj) in Haj. congruence.
Qed.

Lemma init_activation_invariant me : activation_invariant (ChannelsList_init me).
Proof. split; simpl; intros *; by rewrite ?lookup_empty. Qed.

Lemma make_active_step s i b :
  activation_invariant s → boxes s !! i = Some b →
  ∃ s' b', make_active (Some (WBox i)) s = Ret tt s' ∧
           activation_invariant s' ∧ active_channel s' = Some i ∧
           boxes s' !! i = Some b' ∧ active b' = true ∧
           unread_ids b' = ∅ ∧ widget_notif b' = "" ∧
           (∀ j, is_Some (boxes s' !! j) ↔ is_Some (boxes s !! j)).
Proof.
  intros Hinv Hb. pose proof Hinv as [Ha Hr Hc].
  destruct (active_channel s) as [o|] eqn:Hac.
  - destruct (decide (o = i)) as [->|Hne].
    + exists s, b. rewrite make_active_same by done.
      assert (active b = true) by (by apply (Ha i b)).
      destruct (Hc i b) as [? ?]; [done..|].
      split_and!; try done.
    + destruct (Hr o eq_refl) as [bo Hbo].
      exists (switched s (<[o := deactivated bo]> (boxes s)) i b), (activated b).
      rewrite (make_active_switch s i b o bo) by done.
      split_and!; simpl; try done.
      * split; simpl.
        -- intros j bj. destruct (decide (j = i)) as [->|Hji].
           { rewrite lookup_insert_eq. intros [= <-]. done. }
           rewrite lookup_insert_ne by done.
           destruct (decide (j = o)) as [->|Hjo].
           { rewrite lookup_insert_eq. intros [= <-]. simpl.
             split; [done|]. intros [=]. done. }
           rewrite lookup_insert_ne by done. intros Hj.
           rewrite (Ha j bj Hj). split; intros [=]; congruence.
        -- intros j [= <-]. rewrite lookup_insert_eq. eauto.
        -- intros j bj. destruct (decide (j = i)) as [->|Hji].
           { rewrite lookup_insert_eq. intros [= <-]. done. }
           rewrite lookup_insert_ne by done.
           destruct (decide (j = o)) as [->|Hjo].
           { rewrite lookup_insert_eq. intros [= <-]. done. }
           rewrite lookup_insert_ne by done. apply Hc.
      * by rewrite lookup_insert_eq.
      * intros j. destruct (decide (j = i)) as [->|Hji].
        { rewrite lookup_insert_eq, Hb. split; eauto. }
        rewrite lookup_insert_ne by done.
        destruct (decide (j = o)) as [->|Hjo].
        { rewrite lookup_insert_eq, Hbo. split; eauto. }
        by rewrite lookup_insert_ne.
  - exists (switched s (boxes s) i b), (activated b).
    rewrite (make_active_first s i b) by done.
    split_and!; simpl; try done.
    * split; simpl.
      -- intros j bj. destruct (decide (j = i)) as [->|Hji].
         { rewrite lookup_insert_eq. intros [= <-]. done. }
         rewrite lookup_insert_ne by done. intros Hj.
         rewrite (Ha j bj Hj). split; intros [=]; congruence.
      -- intros j [= <-]. rewrite lookup_insert_eq. eauto.
      -- intros j bj. destruct (decide (j = i)) as [->|Hji].
         { rewrite lookup_insert_eq. intros [= <-]. done. }
         rewrite lookup_insert_ne by done. apply Hc.
    * by rewrite lookup_insert_eq.
    * intros j. destruct (decide (j = i)) as [->|Hji].
      { rewrite lookup_insert_eq, Hb. split; eauto. }
      by rewrite lookup_insert_ne.
Qed.

Lemma activate_all_run s ids :
  activation_invariant s →
  Forall (λ i, is_Some (boxes s !! i)) ids →
  ∃ s', activate_all ids s = Ret tt s' ∧ activation_invariant s' ∧
        (∀ j, is_Some (boxes s' !! j) ↔ is_Some (boxes s !! j)) ∧
        (∀ i, last ids = Some i →
           active_channel s' = Some i ∧
           ∃ b, boxes s' !! i = Some b ∧ active b = true ∧
                unread_ids b = ∅ ∧ widget_notif b = "").
Proof.
  intros Hinv Hids. revert s Hinv Hids.
  induction ids as [|i ids IH]; intros s Hinv Hids.
  - exists s. split_and!; try done.
  - apply Forall_cons in Hids as [[b Hb] Hids].
    destruct (make_active_step s i b Hinv Hb)
      as (s1 & b1 & Hrun & Hinv1 & Hac1 & Hb1 & Hact & Hun & Hno & Hdom).
    destruct (IH s1 Hinv1) as (s' & Hrun' & Hinv' & Hdom' & Hlast).
    { eapply Forall_impl; [exact Hids|]. intros j ?. by apply Hdom. }
    exists s'. simpl. unfold bind. rewrite Hrun.
    split_and!; try done.
    + intros j. by rewrite Hdom', Hdom.
    + destruct ids as [|i' ids']; [|exact Hlast].
      simpl in Hrun'. unfold ret in Hrun'.
      injection Hrun' as <-.
      intros ? [= <-]. split; [done|]. by exists b1.
Qed.

(** ** Loading *)

Lemma make_active_frame s i s' :
  make_active (Some (WBox i)) s = Ret tt s' →
  channels s' = channels s ∧ focus s' = focus s ∧
  next_ref s' = next_ref s ∧ boundjid_bare s' = boundjid_bare s ∧
  (∀ j b, boxes s !! j = Some b →
     ∃ b', boxes s' !! j = Some b' ∧
           most_recent_activity b' = most_recent_activity b ∧
           channel b' = channel b).
Proof.
  intros Hrun. apply make_active_inv in Hrun
    as [[_ ->]|[(b & _ & Hb & ->)|(b & o & bo & _ & Hne & Hb & Hbo & ->)]].
  - split_and!; try done. intros j b Hj. by exists b.
  - split_and!; try done. simpl. intros j bj Hj.
    destruct (decide (j = i)) as [->|Hji].
    + rewrite lookup_insert_eq. simplify_eq. by exists (activated b).
    + rewrite lookup_insert_ne by done. by exists bj.
  - split_and!; try done. simpl. intros j bj Hj.
    destruct (decide (j = i)) as [->|Hji].
    + rewrite lookup_insert_eq. simplify_eq. by exists (activated b).
    + rewrite lookup_insert_ne by done.
      destruct (decide (j = o)) as [->|Hjo].
      * rewrite lookup_insert_eq. simplify_eq. by exists (deactivated bo).
      * rewrite lookup_insert_ne by done. by exists bj.
Qed.

Lemma add_channel_loading me seen chan s s' :
  loading me seen s →
  add_channel chan s = Ret tt s' →
  loading me (seen ∨ jid chan = me) s'.
Proof.
  intros [Hme Hfo Hrows Hself]. unfold add_channel, bind at 1.
  destruct (ChannelBox_init chan s) as [w s1|] eqn:Hinit; [|done].
  apply ChannelBox_init_inv in Hinit
    as (user & domain & dom & _ & _ & _ & -> & ->).
  unfold bind at 1, gets. unfold bind at 1, gets. simpl.
  assert (Hold : ∀ wd, (∃ i b, wd = WBox i ∧ boxes s !! i = Some b ∧
                    most_recent_activity b = _oldest_date ∧ (i < next_ref s)%nat) →
          ∃ i b, wd = WBox i ∧
                 <[next_ref s := fresh_box chan user dom]> (boxes s) !! i = Some b ∧
                 most_recent_activity b = _oldest_date ∧ (i < S (next_ref s))%nat).
  { intros wd (i & b & -> & Hb & Hk & Hlt). exists i, b.
    rewrite lookup_insert_ne by lia. split_and!; try done. lia. }
  rewrite Hme. destruct (decide (jid chan = me)) as [Hj|Hj].
  - unfold bind, set_channels, modify. simpl.
    rewrite modified_id by (simpl; lia).
    intros Hrun. apply make_active_frame in Hrun
      as (Hch & Hf & Hnx & Hbj & Hbx). simpl in *.
    split; [congruence|congruence| |].
    + rewrite Hch, Hnx. constructor.
      * destruct (Hbx (next_ref s) (fresh_box chan user dom))
          as (b' & Hb' & Hk' & _); [by rewrite lookup_insert_eq|].
        exists (next_ref s), b'. split_and!; try done. lia.
      * eapply Forall_impl; [exact Hrows|]. intros wd Hwd.
        destruct (Hold wd Hwd) as (i & b & -> & Hb & Hk & Hlt).
        destruct (Hbx i b Hb) as (b' & Hb' & Hk' & _).
        exists i, b'. split_and!; try done. congruence.
    + intros _.
      destruct (Hbx (next_ref s) (fresh_box chan user dom))
        as (b' & Hb' & _ & Hc'); [by rewrite lookup_insert_eq|].
      exists (next_ref s), b', (channels s). rewrite Hch.
      split_and!; try done. by rewrite Hc'.
  - unfold set_channels, modify. simpl.
    rewrite modified_id by (simpl; rewrite length_app; simpl; lia).
    intros [= <-]. split; simpl; try done.
    + apply Forall_app. split.
      * eapply Forall_impl; [exact Hrows|]. exact Hold.
      * constructor; [|constructor].
        exists (next_ref s), (fresh_box chan user dom).
        rewrite lookup_insert_eq. split_and!; try done. lia.
    + intros [Hs|Hs]; [|done]. destruct (Hself Hs) as (i & b & rest & Hl & Hb & Hjb).
      exists i, b, (rest ++ [WBox (next_ref s)])%list. rewrite Hl. simpl.
      split_and!; try done.
      rewrite lookup_insert_ne; [done|].
      rewrite Hl in Hrows. apply Forall_cons in Hrows as [(i' & b' & Hw & _ & _ & Hlt) _].
      simplify_eq. lia.
Qed.

Lemma add_channels_loading me seen chans s s' :
  loading me seen s →
  add_channels chans s = Ret tt s' →
  loading me (seen ∨ me ∈ jid <$> chans) s'.
Proof.
  revert seen s. induction chans as [|chan chans IH]; intros seen s Hl; simpl.
  - intros [= <-]. destruct Hl as [? ? ? Hs]. split; try done.
    intros [Hseen|Hin]; [auto|]. by apply elem_of_nil in Hin.
  - unfold bind. destruct (add_channel chan s) as [[] s1|] eqn:Hadd; [|done].
    intros Hrun.
    pose proof (add_channel_loading _ _ _ _ _ Hl Hadd) as Hl1.
    pose proof (IH _ _ Hl1 Hrun) as [? ? ? Hs]. split; try done.
    intros Hseen. apply Hs. rewrite elem_of_cons in Hseen.
    destruct Hseen as [?|[?|?]]; auto.
Qed.

Lemma sorted_of_equal_keys h (l : list widget) k :
  Forall (λ w, key h w = k) l →
  StronglySorted (λ w1 w2, key h w2 ≤ key h w1) l.
Proof.
  induction 1 as [|w l Hw Hl IH]; constructor; [done|].
  eapply Forall_impl; [exact Hl|]. simpl. intros w' Hw'. lia.
Qed.

(** After a load that returned, with the user's own channel among the
    subscriptions, the list is ready for the feed events. *)
Lemma load_channels_post s own chans s0 :
  load_channels (Fetched own) (Fetched chans) s = Ret tt s0 →
  boundjid_bare s ∈ jid <$> chans →
  list_ok s0 ∧ self_channel_first s0 ∧ divider_second s0.
Proof.
  unfold load_channels. unfold bind at 1, set_channels, modify.
  set (s1 := _modified _).
  assert (Hl1 : loading (boundjid_bare s) False s1).
  { unfold s1, _modified. simpl. split; simpl; try done. }
  unfold bind at 1.
  destruct (add_channels chans s1) as [[] s2|] eqn:Hadd; [|done].
  pose proof (add_channels_loading _ _ _ _ _ Hl1 Hadd) as [Hme Hfo Hrows Hself].
  unfold bind, new_ref, gets, set_channels, emit, modify. simpl.
  intros [= <-] Hin.
  destruct Hself as (i & b & rest & Hl & Hb & Hj); [by right|].
  rewrite Hl in *. simpl.
  rewrite modified_id by (simpl; lia). simpl.
  apply Forall_cons in Hrows as [_ Hrows].
  split_and!.
  - split; simpl.
    + rewrite Hfo. eauto.
    + unfold tail_resolves. simpl. eapply Forall_impl; [exact Hrows|].
      intros w (j & bj & -> & Hbj & _). simpl. rewrite Hbj. eauto.
    + apply (sorted_of_equal_keys _ _ _oldest_date).
      eapply Forall_impl; [exact Hrows|].
      intros w (j & bj & -> & Hbj & Hk & _). unfold key. simpl. by rewrite Hbj.
  - exists i, b. simpl. split_and!; try done. congruence.
  - by exists (next_ref s2).
Qed.

(** * The claims *)

(** ** C1: the header line *)

Lemma size_zero_iff (X : gset string) : size X = 0%nat ↔ X = ∅.
Proof. rewrite size_empty_iff. by unfold_leibniz. Qed.

(** C1.  The first line of [ChannelBox.render] follows the priority ladder.
    With [Uw] the packed width of the user text, [Nw] that of the badge and
    [W] the width of the row: without unread posts the domain gets
    [W - Uw] columns when that is positive, otherwise the user widget alone
    is drawn at [W]; with unread posts the three widgets are drawn exactly
    when [W - Uw - Nw > 0], otherwise the user shrinks to
    [min Uw (W - Nw)] and is drawn with the badge when that is positive,
    otherwise the badge alone is drawn at [W].  For widths 5 and 5 and
    [W = 8] the user is cut to 3 columns and followed by the badge on 5. *)
Theorem header_priority_ladder :
  (∀ (b : ChannelBox) (W : Z),
     let Uw := pack (widget_user b) in
     let Nw := pack (widget_notif b) in
     (unread_ids b = ∅ →
        (0 < W - Uw → render b W = CanvasJoin [(User, Uw); (Domain, W - Uw)]) ∧
        (W - Uw ≤ 0 → render b W = Alone User W)) ∧
     (unread_ids b ≠ ∅ →
        ((∃ u d n, render b W = CanvasJoin [(User, u); (Domain, d); (Notif, n)])
           ↔ 0 < W - Uw - Nw) ∧
        (0 < W - Uw - Nw →
           render b W
           = CanvasJoin [(User, Uw); (Domain, W - Uw - Nw); (Notif, Nw)]) ∧
        (W - Uw - Nw ≤ 0 → 0 < Z.min Uw (W - Nw) →
           render b W = CanvasJoin [(User, Z.min Uw (W - Nw)); (Notif, Nw)]) ∧
        (W - Uw - Nw ≤ 0 → Z.min Uw (W - Nw) ≤ 0 →
           render b W = Alone Notif W))) ∧
  (∀ n, render_header 8 5 5 (S n) = CanvasJoin [(User, 3); (Notif, 5)]) ∧
  (∀ b, widget_user b = "alice" → widget_notif b = " [12]" →
        unread_ids b ≠ ∅ →
        render b 8 = CanvasJoin [(User, 3); (Notif, 5)]).
Proof.
  split_and!.
  - intros b W Uw Nw. unfold render, render_header. fold Uw Nw. split.
    + intros He. rewrite He, size_empty. simpl.
      destruct (Z.gtb_spec (W - Uw) 0); split; intros; try done; lia.
    + intros Hne.
      assert (Hs : (size (unread_ids b) =? 0)%nat = false).
      { apply Nat.eqb_neq. by rewrite size_zero_iff. }
      rewrite Hs.
      destruct (Z.gtb_spec (W - Uw - Nw) 0) as [Hd|Hd].
      * split_and!; try done; try (intros; lia).
        split; [intros; lia|]. intros _. eauto.
      * destruct (Z.gtb_spec (Z.min Uw (W - Nw)) 0) as [Hu|Hu].
        -- split_and!; try done; try (intros; lia).
           split; [|intros; lia]. by intros (u & d & n & [=]).
        -- split_and!; try done; try (intros; lia).
           split; [|intros; lia]. by intros (u & d & n & [=]).
  - done.
  - intros b Hu Hn Hne. unfold render. rewrite Hu, Hn.
    destruct (size (unread_ids b)) eqn:Hs; [by apply size_zero_iff in Hs|].
    reflexivity.
Qed.

(** ** C8 and C5: [sort_channels] *)

(** C8.  When the focused row is a [ChannelBox], [sort_channels] returns
    and the focused row afterwards is the same object, wherever the sort
    moved it. *)
Theorem focus_follows_identity (s : State) (i : nat) :
  channels s !! focus s = Some (WBox i) →
  tail_resolves s →
  ∃ s', sort_channels s = Ret tt s' ∧
        get_focus s' = Ret (Some (WBox i)) s' ∧
        channels s' !! focus s' = Some (WBox i).
Proof.
  intros Hw Ht.
  destruct (sort_channels_spec s (WBox i) Hw Ht) as (pos & Hrun & Hidx).
  exists (sorted_state s pos). split; [done|].
  apply index_lookup in Hidx.
  split; [|done]. by apply get_focus_ok.
Qed.

(** C5.  On the empty list [sort_channels] raises [ValueError]: there is
    no focused row, and [index] is asked for [None].  On every list with a
    focused row whose rows from position 2 on are boxes it returns, and
    the rows afterwards are a rearrangement of the rows before. *)
Theorem sort_channels_empty_list :
  (∀ me, sort_channels (ChannelsList_init me)
         = Raise ValueError (ChannelsList_init me)) ∧
  (∀ s, channels s = [] → ∃ s', sort_channels s = Raise ValueError s') ∧
  (∀ s w, channels s !! focus s = Some w → tail_resolves s →
     ∃ s', sort_channels s = Ret tt s' ∧ channels s' ≡ₚ channels s ∧
           boxes s' = boxes s).
Proof.
  split_and!.
  - done.
  - intros s Hl. unfold sort_channels, bind at 1.
    rewrite get_focus_empty by done.
    unfold bind, gets, set_channels, modify. rewrite Hl. simpl. eauto.
  - intros s w Hw Ht.
    destruct (sort_channels_spec s w Hw Ht) as (pos & Hrun & _).
    exists (sorted_state s pos). split_and!; try done.
    simpl. apply sorted_list_perm.
Qed.

Ltac run_example := vm_compute; repeat first [reflexivity | eexists | split].

Ltac rows_resolve :=
  unfold tail_resolves; vm_compute;
  repeat (constructor; [eexists; reflexivity|]); constructor.

Lemma header_priority_ladder_witness :
  ∃ b, boxes unread_two !! 2%nat = Some b ∧ widget_user b = "carol" ∧
       widget_notif b = " [2]" ∧
       render b 20 = CanvasJoin [(User, 5); (Domain, 11); (Notif, 4)] ∧
       render b 8 = CanvasJoin [(User, 4); (Notif, 4)] ∧
       render b 3 = Alone Notif 3.
Proof.
  eexists. split; [vm_compute; reflexivity|].
  split; [reflexivity|]. split; [reflexivity|].
  pose proof (proj1 header_priority_ladder) as H.
  split_and!.
  - refine (proj1 (proj2 (proj2 (H _ 20) _)) _); [|vm_compute; reflexivity].
    intros He. apply (f_equal size) in He. vm_compute in He. discriminate.
  - refine (proj1 (proj2 (proj2 (proj2 (H _ 8) _))) _ _);
      [|vm_compute; discriminate|vm_compute; reflexivity].
    intros He. apply (f_equal size) in He. vm_compute in He. discriminate.
  - refine (proj2 (proj2 (proj2 (proj2 (H _ 3) _))) _ _);
      [|vm_compute; discriminate..].
    intros He. apply (f_equal size) in He. vm_compute in He. discriminate.
Defined.

Lemma focus_follows_identity_witness :
  channels before_sort = [WBox 1; WDivider 3; WBox 0; WBox 2] ∧
  focus before_sort = 2%nat ∧
  ∃ s', sort_channels before_sort = Ret tt s' ∧
        get_focus s' = Ret (Some (WBox 0)) s' ∧
        channels s' !! focus s' = Some (WBox 0).
Proof.
  split; [reflexivity|]. split; [reflexivity|].
  apply (focus_follows_identity before_sort 0).
  - vm_compute. reflexivity.
  - rows_resolve.
Defined.

(** The row that keeps the focus did move: from position 2 to 3. *)
Example focus_moves_with_the_row :
  channels (final (sort_channels before_sort))
  = [WBox 1; WDivider 3; WBox 2; WBox 0] ∧
  focus (final (sort_channels before_sort)) = 3%nat.
Proof. split; vm_compute; reflexivity. Qed.

(** ** C3: unread accounting of a post event *)

(** C3.  A post event on a box of a list with a focused row returns, and
    for the box [b] it is delivered to: when [b] is inactive and its date
    was not the oldest date, the unread set grows by exactly the ids of the
    atoms; when [b] is active the unread set is unchanged; when the date
    was still the oldest date nothing is added, active or not.  No other
    box changes. *)
Theorem unread_accumulation (self : nat) (atoms : list Atom) (s : State)
    (b : ChannelBox) (w : widget) :
  boxes s !! self = Some b →
  channels s !! focus s = Some w →
  tail_resolves s →
  ∃ s' b',
    pubsub_posts_callback self atoms s = Ret tt s' ∧
    boxes s' !! self = Some b' ∧
    (active b = false → most_recent_activity b ≠ _oldest_date →
       unread_ids b' = unread_ids b ∪ list_to_set (atom_id <$> atoms)) ∧
    (active b = true → unread_ids b' = unread_ids b) ∧
    (most_recent_activity b = _oldest_date → unread_ids b' = unread_ids b) ∧
    (∀ j, j ≠ self → boxes s' !! j = boxes s !! j).
Proof.
  intros Hb Hw Ht.
  destruct (posts_callback_spec self atoms s b w Hb Hw Ht)
    as (s' & Hrun & Hbx & _).
  exists s', (posted atoms b). rewrite Hbx, lookup_insert_eq.
  split_and!; try done.
  - intros Ha Hk. unfold posted. rewrite Ha.
    destruct (Z.eqb_spec (most_recent_activity b) _oldest_date); [done|].
    by destruct (0 <? size _)%nat.
  - intros Ha. unfold posted. by rewrite Ha.
  - intros Hk. unfold posted. rewrite Hk. simpl. by destruct (active b).
  - intros j Hj. by rewrite lookup_insert_ne.
Qed.

Lemma unread_accumulation_witness :
  ∃ s' b',
    pubsub_posts_callback 2%nat
      [mkAtom "c1" 20 "one"; mkAtom "c2" 21 "two"] probed = Ret tt s' ∧
    boxes s' !! 2%nat = Some b' ∧
    unread_ids b'
    = unread_ids (mkChannelBox carol false ∅ "carol" "@bcd" "" "" false
                    "" "" "" "" 5)
      ∪ list_to_set (atom_id <$> [mkAtom "c1" 20 "one"; mkAtom "c2" 21 "two"]).
Proof.
  destruct (unread_accumulation 2%nat
              [mkAtom "c1" 20 "one"; mkAtom "c2" 21 "two"] probed
              (mkChannelBox carol false ∅ "carol" "@bcd" "" "" false
                 "" "" "" "" 5)
              (WBox 1))
    as (s' & b' & Hrun & Hb' & Hun & _); [vm_compute; reflexivity..|rows_resolve|].
  exists s', b'. split; [exact Hrun|]. split; [exact Hb'|].
  apply Hun; [reflexivity|vm_compute; discriminate].
Defined.

(** The probe of the constructor is not counted: the first post of a box
    leaves the unread set empty and the badge blank. *)
Example probe_is_not_unread :
  ∃ b, boxes probed !! 2%nat = Some b ∧ unread_ids b = ∅ ∧
       widget_notif b = "" ∧ most_recent_activity b = 5.
Proof. eexists. split; [vm_compute; reflexivity|]. by split_and!. Qed.

(** ** C10: a retraction leaves the badge text alone *)

Lemma notif_drawn_iff_unread b W : Notif ∈ parts (render b W) ↔ unread_ids b ≠ ∅.
Proof.
  unfold render, render_header.
  destruct (size (unread_ids b)) as [|n] eqn:Hs; simpl.
  - apply size_zero_iff in Hs. rewrite Hs.
    destruct (_ >? 0); simpl; split; try done;
      rewrite ?elem_of_cons, ?elem_of_nil; intuition congruence.
  - assert (unread_ids b ≠ ∅).
    { intros He. apply size_zero_iff in He. lia. }
    destruct (_ >? 0); [|destruct (_ >? 0)]; simpl; split; try done; intros _;
      rewrite ?elem_of_cons; auto.
Qed.

(** C10.  [pubsub_retract_callback] removes the ids from the unread set of
    its box and writes nothing else into any box, so the badge text stays
    what the last post event or activation made it, whether the callback
    returns or raises.  The header shows the badge exactly when the unread
    set is not empty, whatever the text says.  On the example: after two
    unread posts the badge reads [" [2]"]; retracting one leaves
    [" [2]"] on show with one id unread; the next post event writes the
    true count; retracting both hides the badge while the text is still
    [" [2]"]; activating the box blanks the text. *)
Theorem retract_keeps_badge :
  (∀ self item_ids s b,
     boxes s !! self = Some b →
     ∃ b', boxes (final (pubsub_retract_callback self item_ids s)) !! self
           = Some b' ∧
           widget_notif b' = widget_notif b ∧
           unread_ids b' = unread_ids b ∖ list_to_set item_ids ∧
           ∀ j, j ≠ self →
             boxes (final (pubsub_retract_callback self item_ids s)) !! j
             = boxes s !! j) ∧
  (∀ b W, Notif ∈ parts (render b W) ↔ unread_ids b ≠ ∅) ∧
  (∀ b, part_text b Notif = widget_notif b) ∧
  (∃ b, boxes (final (pubsub_retract_callback 2%nat ["c1"] unread_two)) !! 2%nat
        = Some b ∧
        active b = false ∧ size (unread_ids b) = 1%nat ∧
        widget_notif b = format_notif 2 ∧
        render b 20 = CanvasJoin [(User, 5); (Domain, 11); (Notif, 4)]) ∧
  (∃ b, boxes (final ((pubsub_retract_callback 2%nat ["c1"] ;;;
                       pubsub_posts_callback 2%nat [mkAtom "c3" 22 "three"])
                      unread_two)) !! 2%nat = Some b ∧
        size (unread_ids b) = 2%nat ∧ widget_notif b = format_notif 2) ∧
  (∃ b, boxes (final ((pubsub_retract_callback 2%nat ["c1"] ;;;
                       pubsub_posts_callback 2%nat
                         [mkAtom "c3" 22 "three"; mkAtom "c4" 23 "four"])
                      unread_two)) !! 2%nat = Some b ∧
        size (unread_ids b) = 3%nat ∧ widget_notif b = format_notif 3) ∧
  (∃ b, boxes (final (pubsub_retract_callback 2%nat ["c1"; "c2"] unread_two))
          !! 2%nat = Some b ∧
        unread_ids b = ∅ ∧ widget_notif b = format_notif 2 ∧
        render b 20 = CanvasJoin [(User, 5); (Domain, 15)]) ∧
  (∃ b, boxes (final ((pubsub_retract_callback 2%nat ["c1"] ;;;
                       make_active (Some (WBox 2)))
                      unread_two)) !! 2%nat = Some b ∧
        unread_ids b = ∅ ∧ widget_notif b = "").
Proof.
  split_and!.
  - intros self ids s b Hb.
    rewrite (retract_callback_boxes self ids s b Hb).
    exists (retracted ids b). rewrite lookup_insert_eq.
    split_and!; try done. intros j Hj. by rewrite lookup_insert_ne.
  - apply notif_drawn_iff_unread.
  - done.
  - eexists. split; [vm_compute; reflexivity|]. split_and!; by vm_compute.
  - eexists. split; [vm_compute; reflexivity|]. split_and!; by vm_compute.
  - eexists. split; [vm_compute; reflexivity|]. split_and!; by vm_compute.
  - eexists. split; [vm_compute; reflexivity|]. split_and!; by vm_compute.
  - eexists. split; [vm_compute; reflexivity|]. split_and!; by vm_compute.
Qed.

Lemma retract_keeps_badge_witness :
  ∃ b', boxes (final (pubsub_retract_callback 2%nat ["c1"] unread_two)) !! 2%nat
        = Some b' ∧
        widget_notif b' = " [2]" ∧
        unread_ids b' = list_to_set ["c1"; "c2"] ∖ list_to_set ["c1"].
Proof.
  destruct (proj1 retract_keeps_badge 2%nat ["c1"] unread_two
              (mkChannelBox carol false (list_to_set ["c1"; "c2"]) "carol"
                 "@bcd" " [2]" "" false "" "" "" "" 21))
    as (b' & Hb' & Hn & Hu & _); [vm_compute; reflexivity|].
  exists b'. split; [exact Hb'|]. split; [exact Hn|]. exact Hu.
Defined.

(** ** C2: the ordering invariant *)

(** C2, as amended.  After a [load_channels] that returned, when the
    subscriptions contain the user's own channel, every sequence of post
    and retract events delivered to boxes of the store runs to its end and
    leaves position 0 to the own channel, position 1 to the divider and the
    rows from position 2 on in descending order of [most_recent_activity];
    and any further event returns and keeps the relative order of the rows
    that then share a timestamp. *)
Theorem ordering_after_load (s : State) (own : Channel) (chans : list Channel)
    (s0 : State) (evs : list event) :
  load_channels (Fetched own) (Fetched chans) s = Ret tt s0 →
  boundjid_bare s ∈ jid <$> chans →
  Forall (λ ev, is_Some (boxes s0 !! target ev)) evs →
  ∃ s', apply_events evs s0 = Ret tt s' ∧
        ordering_invariant s' ∧
        ∀ ev, is_Some (boxes s' !! target ev) →
          ∃ s'', apply_event ev s' = Ret tt s'' ∧
                 ordering_invariant s'' ∧ keeps_ties s' s''.
Proof.
  intros Hload Hin Hevs.
  destruct (load_channels_post s own chans s0 Hload Hin) as (Hok & Hself & Hdiv).
  destruct (events_run s0 evs Hok Hself Hdiv Hevs)
    as (s' & Hrun & Hok' & Hself' & Hdiv' & _).
  exists s'. split; [done|]. split.
  - repeat split; try done. by apply sorted_by_activity_of_list_ok.
  - intros ev Hev.
    destruct (event_step s' ev Hok' Hself' Hdiv' Hev)
      as (s'' & Hrun'' & Hok'' & Hself'' & Hdiv'' & Hties & _).
    exists s''. split; [done|]. split; [|done].
    repeat split; try done. by apply sorted_by_activity_of_list_ok.
Qed.

Lemma ordering_after_load_witness :
  ∃ s', apply_events
          [Post 0%nat [mkAtom "b0" 10 "hello"];
           Post 2%nat [mkAtom "c0" 5 "hi"];
           Retract 2%nat ["c0"];
           Post 2%nat [mkAtom "c1" 20 "one"; mkAtom "c2" 21 "two"]] loaded
        = Ret tt s' ∧
        ordering_invariant s' ∧
        ∀ ev, is_Some (boxes s' !! target ev) →
          ∃ s'', apply_event ev s' = Ret tt s'' ∧
                 ordering_invariant s'' ∧ keeps_ties s' s''.
Proof.
  apply (ordering_after_load started alice [bob; alice; carol]).
  - vm_compute. reflexivity.
  - apply (list_elem_of_fmap_2 jid _ alice).
    apply elem_of_cons. right. apply elem_of_cons. by left.
  - repeat (constructor; [vm_compute; eexists; reflexivity|]). constructor.
Defined.

(** The run of the witness ends with carol's row in front of bob's. *)
Example ordering_after_events :
  channels (final (apply_events
          [Post 0%nat [mkAtom "b0" 10 "hello"];
           Post 2%nat [mkAtom "c0" 5 "hi"];
           Retract 2%nat ["c0"];
           Post 2%nat [mkAtom "c1" 20 "one"; mkAtom "c2" 21 "two"]] loaded))
  = [WBox 1; WDivider 3; WBox 2; WBox 0].
Proof. vm_compute. reflexivity. Qed.

(** C2 as stated fails: a load whose subscriptions lack the user's own
    channel returns, and position 0 then holds another channel. *)
Lemma ordering_without_own_channel :
  ∃ s0, load_channels (Fetched alice) (Fetched [bob; carol]) started = Ret tt s0 ∧
        apply_events [] s0 = Ret tt s0 ∧
        channels s0 = [WBox 0; WDivider 2; WBox 1] ∧
        ¬ self_channel_first s0 ∧
        ¬ ordering_invariant s0.
Proof.
  eexists. split; [vm_compute; reflexivity|].
  split; [reflexivity|]. split; [reflexivity|].
  assert (Hno : ¬ self_channel_first
                    (final (load_channels (Fetched alice) (Fetched [bob; carol])
                              started))).
  { intros (i & b & Hi & Hb & Hj). vm_compute in Hi.
    injection Hi as <-. vm_compute in Hb. injection Hb as <-.
    vm_compute in Hj. discriminate. }
  split; [exact Hno|]. intros (Hs & _). by apply Hno.
Qed.

(** An empty subscription list leaves the divider alone, at position 0. *)
Example load_without_subscriptions :
  channels (final (load_channels (Fetched alice) (Fetched []) started))
  = [WDivider 0].
Proof. vm_compute. reflexivity. Qed.

(** ** C7: activation *)

(** C7.  From a state whose active flags agree with [active_channel], any
    run of [make_active] calls on boxes of the store returns, and
    afterwards at most one box is active, the box activated last is the
    active one with an empty unread set and a blank badge, and activating
    it again returns the very same state. *)
Theorem activation_exclusive (s : State) (ids : list nat) :
  activation_invariant s →
  Forall (λ i, is_Some (boxes s !! i)) ids →
  ∃ s', activate_all ids s = Ret tt s' ∧
        at_most_one_active s' ∧
        (∀ i, last ids = Some i →
           active_channel s' = Some i ∧
           ∃ b, boxes s' !! i = Some b ∧ active b = true ∧
                unread_ids b = ∅ ∧ widget_notif b = "") ∧
        (∀ i, active_channel s' = Some i →
           make_active (Some (WBox i)) s' = Ret tt s').
Proof.
  intros Hinv Hids.
  destruct (activate_all_run s ids Hinv Hids) as (s' & Hrun & Hinv' & _ & Hlast).
  exists s'. split_and!; try done.
  - by apply at_most_one_of_invariant.
  - intros i Hi. by apply make_active_same.
Qed.

Lemma unread_two_boxes i b :
  boxes unread_two !! i = Some b →
  (i, b) ∈ [(0%nat, mkChannelBox bob false ∅ "bob" "@ao" "" "" false
                      "" "" "" "" 10);
            (1%nat, mkChannelBox alice true ∅ "alice" "@elx" "" "" true
                      "" "" "" "" 0);
            (2%nat, mkChannelBox carol false (list_to_set ["c1"; "c2"]) "carol"
                      "@bcd" " [2]" "" false "" "" "" "" 21)].
Proof.
  intros Hb. apply elem_of_map_to_list in Hb.
  set (l := map_to_list _) in Hb.
  assert (Hl : Permutation l (map_to_list (list_to_map
     [(0%nat, mkChannelBox bob false ∅ "bob" "@ao" "" "" false
                "" "" "" "" 10);
      (1%nat, mkChannelBox alice true ∅ "alice" "@elx" "" "" true
                "" "" "" "" 0);
      (2%nat, mkChannelBox carol false (list_to_set ["c1"; "c2"]) "carol"
                "@bcd" " [2]" "" false "" "" "" "" 21)] : gmap nat ChannelBox))).
  { unfold l. f_equiv. vm_compute. reflexivity. }
  rewrite Hl in Hb. apply elem_of_map_to_list in Hb.
  by apply elem_of_list_to_map_2 in Hb.
Qed.

Ltac unread_two_cases H :=
  apply unread_two_boxes in H;
  repeat (apply elem_of_cons in H as [H|H]; [injection H as -> ->|]);
  [..|by apply elem_of_nil in H].

Lemma unread_two_activation_invariant : activation_invariant unread_two.
Proof.
  split.
  - intros i b Hb. unread_two_cases Hb; vm_compute; split; congruence.
  - intros i Hi. vm_compute in Hi. injection Hi as <-. vm_compute. eauto.
  - intros i b Hb. unread_two_cases Hb; simpl; intros Ha;
      try discriminate. done.
Qed.

Lemma activation_exclusive_witness :
  ∃ s', activate_all [2%nat; 0%nat; 0%nat] unread_two = Ret tt s' ∧
        at_most_one_active s' ∧
        (∀ i, last [2%nat; 0%nat; 0%nat] = Some i →
           active_channel s' = Some i ∧
           ∃ b, boxes s' !! i = Some b ∧ active b = true ∧
                unread_ids b = ∅ ∧ widget_notif b = "") ∧
        (∀ i, active_channel s' = Some i →
           make_active (Some (WBox i)) s' = Ret tt s').
Proof.
  apply (activation_exclusive unread_two [2%nat; 0%nat; 0%nat]).
  - exact unread_two_activation_invariant.
  - repeat (constructor; [vm_compute; eexists; reflexivity|]). constructor.
Defined.

(** Activating carol's box, which had two unread posts, empties its set
    and badge and takes the flag from alice's box. *)
Example activation_clears_unread :
  ∃ s' a c, make_active (Some (WBox 2)) unread_two = Ret tt s' ∧
            boxes s' !! 1%nat = Some a ∧ active a = false ∧
            boxes s' !! 2%nat = Some c ∧ active c = true ∧
            unread_ids c = ∅ ∧ widget_notif c = "" ∧
            status s' = "Displaying channel carol@b.c.d...".
Proof.
  eexists _, _, _. split; [vm_compute; reflexivity|].
  split; [vm_compute; reflexivity|]. split; [reflexivity|].
  split; [vm_compute; reflexivity|]. by split_and!.
Qed.

(** ** C6: reset of the active channel *)

(** What [reset] does when the forced fetch fails with [ChannelError]: it
    returns and the state is the one it started from, status line and
    trace of calls included. *)
Lemma reset_fetch_failure get_channel s old b idx :
  active_channel s = Some old →
  index (WBox old) (channels s) = Some idx →
  boxes s !! old = Some b →
  get_channel (jid (channel b)) true = Failed ChannelError →
  reset get_channel s = Ret tt s.
Proof.
  intros Ha Hi Hb Hg. unfold reset, bind at 1, gets. rewrite Ha.
  unfold bind at 1, gets. rewrite Hi.
  unfold bind at 1, read_box. rewrite Hb, Hg. done.
Qed.

(** What [reset] does when the fetch succeeds and the new box can be
    built: the new box takes the row of the old one and becomes the active
    one; the old box is deactivated. *)
Lemma reset_fetch_success get_channel s old b idx new_chan user domain dom :
  active_channel s = Some old →
  index (WBox old) (channels s) = Some idx →
  boxes s !! old = Some b →
  (old < next_ref s)%nat →
  get_channel (jid (channel b)) true = Fetched new_chan →
  split_once "@"%char (jid new_chan) = Some (user, domain) →
  initials (split_all "."%char domain) = Some dom →
  requests new_chan = None →
  ∃ s', reset get_channel s = Ret tt s' ∧
        channels s' = <[idx := WBox (next_ref s)]> (channels s) ∧
        channels s' !! idx = Some (WBox (next_ref s)) ∧
        active_channel s' = Some (next_ref s) ∧
        boxes s' !! next_ref s = Some (activated (fresh_box new_chan user dom)) ∧
        boxes s' !! old = Some (deactivated b).
Proof.
  intros Ha Hi Hb Hlt Hg H1 H2 H3. unfold reset, bind at 1, gets. rewrite Ha.
  unfold bind at 1, gets. rewrite Hi.
  unfold bind at 1, read_box. rewrite Hb, Hg.
  unfold bind at 1. rewrite (ChannelBox_init_ok _ _ _ _ _ H1 H2 H3).
  unfold bind at 1, gets. unfold bind at 1, set_channels, modify. simpl.
  pose proof (index_lookup _ _ _ Hi) as Hl.
  pose proof (lookup_lt_Some _ _ _ Hl) as Hlen.
  set (s1 := _modified _).
  assert (Hs1 : channels s1 = <[idx := WBox (next_ref s)]> (channels s) ∧
                boxes s1 = <[next_ref s := fresh_box new_chan user dom]> (boxes s) ∧
                active_channel s1 = Some old).
  { unfold s1, _modified. simpl. by case_match. }
  destruct Hs1 as (Hc1 & Hb1 & Ha1).
  rewrite (make_active_switch s1 (next_ref s) (fresh_box new_chan user dom) old b).
  - eexists. split; [reflexivity|]. simpl. rewrite Hc1, Hb1.
    split_and!; try done.
    + by apply list_lookup_insert_eq.
    + by rewrite lookup_insert_eq.
    + rewrite lookup_insert_ne by lia. by rewrite lookup_insert_eq.
  - done.
  - lia.
  - by rewrite Hb1, lookup_insert_eq.
  - rewrite Hb1, lookup_insert_ne by lia. done.
Qed.

(** C6.  When the forced fetch of [reset] fails with [ChannelError],
    [reset] returns and ends in the very state it started from: the rows,
    the boxes and their active flags are those of before, and so are the
    status line and the calls made to the collaborators.  No warning is
    shown (the source leaves it as a TODO). *)
Theorem reset_failure_is_silent get_channel s old b idx :
  active_channel s = Some old →
  index (WBox old) (channels s) = Some idx →
  boxes s !! old = Some b →
  get_channel (jid (channel b)) true = Failed ChannelError →
  reset get_channel s = Ret tt s ∧
  status (final (reset get_channel s)) = status s ∧
  calls (final (reset get_channel s)) = calls s.
Proof.
  intros Ha Hi Hb Hg.
  by rewrite (reset_fetch_failure get_channel s old b idx).
Qed.

Lemma reset_failure_is_silent_witness :
  reset (λ _ _, Failed ChannelError) unread_two = Ret tt unread_two ∧
  status (final (reset (λ _ _, Failed ChannelError) unread_two))
  = status unread_two ∧
  calls (final (reset (λ _ _, Failed ChannelError) unread_two))
  = calls unread_two.
Proof.
  apply (reset_failure_is_silent (λ _ _, Failed ChannelError) unread_two 1%nat
           (mkChannelBox alice true ∅ "alice" "@elx" "" "" true
              "" "" "" "" 0) 0%nat);
    vm_compute; reflexivity.
Defined.

(** The status line of the example still announces the channel displayed
    before the failed fetch. *)
Example reset_failure_status :
  status (final (reset (λ _ _, Failed ChannelError) unread_two))
  = "Displaying channel alice@example.long.xyz...".
Proof. vm_compute. reflexivity. Qed.

(** On success the new box sits where the old one was and is active. *)
Example reset_replaces_in_place :
  ∃ s', reset (λ j _, Fetched (mkChannel j None)) unread_two = Ret tt s' ∧
        channels s' = [WBox 4; WDivider 3; WBox 2; WBox 0] ∧
        active_channel s' = Some 4%nat.
Proof. eexists. split; [vm_compute; reflexivity|]. by split. Qed.

(** ** C4: a [ChannelError] during the load *)

(** C4 fails: [load_channels] has no handler.  A [ChannelError] of the
    fetch of the own channel or of the subscriptions leaves [load_channels]
    as a [ChannelError], in the state it was called in; a [ChannelError]
    raised while the box of a subscribed channel is built leaves it as a
    [ChannelError] too, after the list was emptied and the boxes of the
    channels before it were added: on the example the four rows of the
    loaded list are replaced by the single row of bob's new box, with
    neither the own channel nor the divider. *)
Theorem load_propagates_channel_error :
  (∀ subs s, load_channels (Failed ChannelError) subs s = Raise ChannelError s) ∧
  (∀ own s,
     load_channels (Fetched own) (Failed ChannelError) s = Raise ChannelError s) ∧
  (∀ own c rest s user domain dom,
     split_once "@"%char (jid c) = Some (user, domain) →
     initials (split_all "."%char domain) = Some dom →
     requests c = Some ChannelError →
     ∃ s', load_channels (Fetched own) (Fetched (c :: rest)) s
           = Raise ChannelError s' ∧ channels s' = []) ∧
  channels loaded = [WBox 1; WDivider 3; WBox 0; WBox 2] ∧
  ∃ s', load_channels (Fetched alice)
          (Fetched [bob; mkChannel "dave@x.y" (Some ChannelError); alice; carol])
          loaded = Raise ChannelError s' ∧
        channels s' = [WBox 4].
Proof.
  split; [done|]. split; [done|]. split.
  - intros own c rest s user domain dom H1 H2 H3.
    unfold load_channels, bind at 1, set_channels, modify.
    set (s1 := _modified _).
    assert (Hc : channels s1 = []).
    { unfold s1, _modified. simpl. done. }
    simpl. unfold bind at 1. unfold bind at 1. unfold add_channel, bind at 1.
    unfold ChannelBox_init. rewrite H1, H2, H3.
    eexists. split; [reflexivity|]. done.
  - split; [vm_compute; reflexivity|].
    eexists. split; [vm_compute; reflexivity|]. reflexivity.
Qed.

(** ** C9: configuration events merge the keys they carry *)

Section Config.

Variable strftime : string → datetime → string.

(** What [set_config] leaves of a box: the keys the event carries are
    merged, every other attribute is the one of before. *)
Lemma merge_config_fields config b :
  chan_title (merge_config strftime config b)
  = from_option strip (chan_title b) (conf_title config) ∧
  chan_description (merge_config strftime config b)
  = from_option strip (chan_description b) (conf_description config) ∧
  chan_creation (merge_config strftime config b)
  = from_option (strftime "%x - %X") (chan_creation b) (conf_creation config) ∧
  chan_type (merge_config strftime config b)
  = from_option id (chan_type b) (conf_type config).
Proof.
  unfold merge_config.
  by destruct (conf_title config), (conf_description config),
    (conf_creation config), (conf_type config).
Qed.

Lemma merge_config_frame config b :
  channel (merge_config strftime config b) = channel b ∧
  active (merge_config strftime config b) = active b ∧
  unread_ids (merge_config strftime config b) = unread_ids b ∧
  widget_user (merge_config strftime config b) = widget_user b ∧
  widget_domain (merge_config strftime config b) = widget_domain b ∧
  widget_notif (merge_config strftime config b) = widget_notif b ∧
  widget_status (merge_config strftime config b) = widget_status b ∧
  style_active (merge_config strftime config b) = style_active b ∧
  most_recent_activity (merge_config strftime config b) = most_recent_activity b.
Proof.
  unfold merge_config.
  by destruct (conf_title config), (conf_description config),
    (conf_creation config), (conf_type config).
Qed.

Lemma set_config_run self config s b :
  boxes s !! self = Some b →
  ∃ s', set_config strftime self config s = Ret tt s' ∧
        boxes s' = <[self := merge_config strftime config b]> (boxes s) ∧
        channels s' = channels s ∧ focus s' = focus s ∧
        active_channel s' = active_channel s ∧ status s' = status s ∧
        calls s' = InvalidateBox self :: calls s ∧
        (active b = false →
           infobar_left s' = infobar_left s ∧ infobar_right s' = infobar_right s) ∧
        (active b = true →
           infobar_left s'
           = format_dash (chan_title (merge_config strftime config b))
               (chan_description (merge_config strftime config b)) ∧
           infobar_right s' = jid (channel b)).
Proof.
  intros Hb. unfold set_config, bind at 1, read_box. rewrite Hb.
  unfold bind at 1, write_box, modify.
  unfold bind at 1, display_config, bind at 1, read_box. simpl.
  rewrite lookup_insert_eq.
  destruct (merge_config_frame config b) as (Hch & Hact & _).
  rewrite Hact, Hch.
  destruct (active b); simpl; eexists; (split; [reflexivity|]); simpl;
    split_and!; try done.
Qed.

End Config.

(** C9.  A configuration event delivered to a box of the store returns.
    In that box the title and the description become the trimmed text of
    the event when the event carries them, the creation text becomes the
    [strftime "%x - %X"] form of the date the event carries, the type
    becomes the type the event carries, as it is; a key the event lacks
    leaves its attribute as it was, and so are all other attributes of the
    box, every other box and the list.  An event with a title alone leaves
    description, creation and type unchanged. *)
Theorem config_partial_merge (strftime : string → datetime → string)
    (self : nat) (conf : Config) (s : State) (b : ChannelBox) :
  boxes s !! self = Some b →
  ∃ s' b',
    pubsub_config_clalback strftime self conf s = Ret tt s' ∧
    boxes s' !! self = Some b' ∧
    chan_title b' = from_option strip (chan_title b) (conf_title conf) ∧
    chan_description b'
    = from_option strip (chan_description b) (conf_description conf) ∧
    chan_creation b'
    = from_option (strftime "%x - %X") (chan_creation b) (conf_creation conf) ∧
    chan_type b' = from_option id (chan_type b) (conf_type conf) ∧
    (conf_description conf = None → conf_creation conf = None →
     conf_type conf = None →
       chan_description b' = chan_description b ∧
       chan_creation b' = chan_creation b ∧ chan_type b' = chan_type b) ∧
    (unread_ids b' = unread_ids b ∧ active b' = active b ∧
     widget_notif b' = widget_notif b ∧ widget_status b' = widget_status b ∧
     most_recent_activity b' = most_recent_activity b) ∧
    (∀ j, j ≠ self → boxes s' !! j = boxes s !! j) ∧
    channels s' = channels s.
Proof.
  intros Hb.
  destruct (set_config_run strftime self conf s b Hb)
    as (s1 & Hrun & Hbx & Hch & _).
  unfold pubsub_config_clalback, bind. rewrite Hrun.
  eexists _, (merge_config strftime conf b). split; [reflexivity|]. simpl.
  rewrite Hbx, lookup_insert_eq.
  destruct (merge_config_fields strftime conf b) as (Ht & Hd & Hc & Hy).
  destruct (merge_config_frame strftime conf b)
    as (_ & Ha & Hu & _ & _ & Hn & Hs & _ & Hm).
  split; [done|]. split; [done|]. split; [done|]. split; [done|].
  split; [done|]. split.
  { intros E1 E2 E3. rewrite Hd, Hc, Hy, E1, E2, E3. done. }
  split; [done|]. split; [|done].
  intros j Hj. by rewrite lookup_insert_ne.
Qed.

Lemma config_partial_merge_witness :
  ∃ s' b',
    pubsub_config_clalback epoch_seconds 2%nat
      (mkConfig (Some "  Carol's notes ") None None None) unread_two
    = Ret tt s' ∧
    boxes s' !! 2%nat = Some b' ∧
    chan_title b' = "Carol's notes" ∧
    chan_description b' = "" ∧ chan_creation b' = "" ∧ chan_type b' = "".
Proof.
  destruct (config_partial_merge epoch_seconds 2%nat
              (mkConfig (Some "  Carol's notes ") None None None) unread_two
              (mkChannelBox carol false (list_to_set ["c1"; "c2"]) "carol"
                 "@bcd" " [2]" "" false "" "" "" "" 21))
    as (s' & b' & Hrun & Hb' & Ht & _ & _ & _ & Hrest & _);
    [vm_compute; reflexivity|].
  exists s', b'. split; [exact Hrun|]. split; [exact Hb'|].
  split; [exact Ht|]. exact (Hrest eq_refl eq_refl eq_refl).
Defined.

(** A full event: both texts are trimmed, the date is formatted, the type
    is taken as it comes, blanks included. *)
Example config_full_event :
  ∃ b, boxes (final (pubsub_config_clalback epoch_seconds 2%nat
                       (mkConfig (Some " t ") (Some "d  ") (Some 7) (Some " open "))
                       unread_two)) !! 2%nat = Some b ∧
       chan_title b = "t" ∧ chan_description b = "d" ∧
       chan_creation b = "day 7" ∧ chan_type b = " open ".
Proof. eexists. split; [vm_compute; reflexivity|]. by vm_compute. Qed.
